(** * createcsvs: path classification and unit conversion

    A shallow embedding of [categorise_paths] and [convert_units] from
    [legacy/createcsvs.py].

    Numbers.  The Python code computes on floats (the real and imaginary
    parts of svgpathtools' complex points).  The classification and the
    order, sign and range properties of the conversion are stated on exact
    rationals [Q], with Python's [==] on numbers as [Qeq]; what depends on
    the rounding of each operation (the formula of the conversion and its
    exceptions) is stated on binary64 doubles, in [OnDoubles].  Integers
    ([xspan], the result of [round]) are [Z].

    Exceptions.  A Python function either returns or raises; the embedding
    returns a [result]. *)

From Stdlib Require Import List ZArith QArith Qround Qabs String Bool Lia.
From Stdlib Require Import Permutation Sorted DecimalString Lqa Ascii.
From Stdlib Require Import SpecFloat.
Import ListNotations.

Set Implicit Arguments.
Local Open Scope Q_scope.

(** ** Exceptions *)

Inductive exn : Type :=
| ValueError (msg : string)
| UnpackError          (* the ValueError of a tuple unpacking of the wrong arity *)
| IndexError
| ZeroDivisionError
| OverflowError.

Inductive result (A : Type) : Type :=
| Ok (a : A)
| Raise (e : exn).

Arguments Ok {A} a.
Arguments Raise {A} e.

Definition bind {A B : Type} (r : result A) (k : A -> result B) : result B :=
  match r with
  | Ok a => k a
  | Raise e => Raise e
  end.

Declare Scope result_scope.
Delimit Scope result_scope with result.
Notation "x <- c ;; k" := (bind c (fun x => k))
  (at level 61, c at next level, right associativity) : result_scope.

(** A list comprehension whose element expression may raise. *)
Fixpoint traverse {A B : Type} (f : A -> result B) (l : list A)
  : result (list B) :=
  match l with
  | [] => Ok []
  | a :: l' =>
      (b <- f a ;;
       bs <- traverse f l' ;;
       Ok (b :: bs))%result
  end.

(** ** Numbers *)

(** Python's [round(x)] with one argument: the nearest integer, a tie going
    to the even neighbour. *)
Definition round (q : Q) : Z :=
  let f := Qfloor q in
  match Qcompare (q - inject_Z f) (1 # 2) with
  | Lt => f
  | Gt => (f + 1)%Z
  | Eq => if Z.even f then f else (f + 1)%Z
  end.

(** Float division: a zero divisor raises. *)
Definition truediv (a b : Q) : result Q :=
  if Qeq_bool b 0 then Raise ZeroDivisionError else Ok (a / b).

(** [str(n)] for a non-negative integer. *)
Definition str (n : nat) : string := NilEmpty.string_of_uint (Nat.to_uint n).

(** ** Sorting *)

(** [list.sort] and [sorted] are stable.  [sort_with leb] is the stable
    sort for the total preorder [leb]: an element goes in front of the
    first later element it is not above. *)
Section Sort.
Variable A : Type.
Variable leb : A -> A -> bool.

Fixpoint insert (x : A) (l : list A) : list A :=
  match l with
  | [] => [x]
  | y :: l' => if leb x y then x :: y :: l' else y :: insert x l'
  end.

Definition sort_with (l : list A) : list A := fold_right insert [] l.
End Sort.

(** [l.sort(key=key)] / [sorted(l, key=key)], ascending. *)
Definition sort_by_key {A : Type} (key : A -> Q) (l : list A) : list A :=
  sort_with (fun a b => Qle_bool (key a) (key b)) l.

(** [sorted(l)] on numbers. *)
Definition sorted (l : list Q) : list Q := sort_by_key (fun y => y) l.

(** [sorted(l, reverse=True)] on numbers: descending, still stable. *)
Definition sorted_reverse (l : list Q) : list Q :=
  sort_with (fun a b => Qle_bool b a) l.

(** ** Geometry (svgpathtools)

    The paths come from svgpathtools: a [Path] is a sequence of segments,
    each with a start and an end point; [path.start] and [path.end] are
    the start of the first and the end of the last segment, and raise on a
    path without segments. *)

(** A Python [complex]. *)
Record complex : Type := Complex { real : Q; imag : Q }.

Definition complex_eqb (a b : complex) : bool :=
  Qeq_bool (real a) (real b) && Qeq_bool (imag a) (imag b).

Module Segment.
(** The segment classes of svgpathtools. *)
Inductive t : Type :=
| Line (start end_ : complex)
| QuadraticBezier (start control end_ : complex)
| CubicBezier (start control1 control2 end_ : complex)
| Arc (start radius : complex) (rotation : Q) (large_arc sweep : bool)
      (end_ : complex).

Definition start (s : t) : complex :=
  match s with
  | Line a _ | QuadraticBezier a _ _ | CubicBezier a _ _ _
  | Arc a _ _ _ _ _ => a
  end.

Definition end_ (s : t) : complex :=
  match s with
  | Line _ b | QuadraticBezier _ _ b | CubicBezier _ _ _ b
  | Arc _ _ _ _ _ b => b
  end.

(** [isinstance(s, svgpathtools.path.CubicBezier)] *)
Definition is_CubicBezier (s : t) : bool :=
  match s with
  | CubicBezier _ _ _ _ => true
  | _ => false
  end.
End Segment.

Module Path.
(** A [Path] is a sequence of segments; [len(path)] is their number. *)
Definition t : Type := list Segment.t.

Definition len (p : t) : nat := List.length p.

(** [path[0]] *)
Definition getitem0 (p : t) : result Segment.t :=
  match p with
  | [] => Raise IndexError
  | s :: _ => Ok s
  end.

(** [path.start]: the start of the first segment. *)
Definition start (p : t) : result complex :=
  match p with
  | [] => Raise IndexError
  | s :: _ => Ok (Segment.start s)
  end.

(** [path.end]: the end of the last segment. *)
Fixpoint end_ (p : t) : result complex :=
  match p with
  | [] => Raise IndexError
  | [s] => Ok (Segment.end_ s)
  | _ :: p' => end_ p'
  end.

(** Modelled from the spec: the recursion of [continuous_subpaths] below,
    on a path that starts with [s].  Segment [s] joins the run of the next
    segment when its end is that segment's start, and otherwise is a run
    of its own. *)
Fixpoint subpaths_from (s : Segment.t) (rest : list Segment.t) : list t :=
  match rest with
  | [] => [[s]]
  | s' :: rest' =>
      let subs := subpaths_from s' rest' in
      if complex_eqb (Segment.end_ s) (Segment.start s') then
        match subs with
        | r :: rs => (s :: r) :: rs
        | [] => [[s]]
        end
      else [s] :: subs
  end.

(** Modelled from the spec: [Path.continuous_subpaths] belongs to
    svgpathtools, which is not among the sources.  Section 4.1 step 7
    and section 6 describe it: the path is cut into its maximal runs of
    segments in which each segment's end is the next segment's start, in
    traversal order. *)
Definition continuous_subpaths (p : t) : list t :=
  match p with
  | [] => [[]]
  | s :: rest => subpaths_from s rest
  end.

(** The numeric routines of svgpathtools that the classifier calls:
    [path.length()] (arc length) and [path.bbox()], which returns
    [(xmin, xmax, ymin, ymax)]. *)
Class Geometry : Type := {
  length : t -> Q;
  bbox : t -> Q * Q * Q * Q
}.
End Path.

(** ** categorise_paths *)

Section Classifier.
Context {G : Path.Geometry}.

(** [len(path) == 1] *)
Definition is_single (path : Path.t) : bool := (Path.len path =? 1)%nat.

(** [len(path) > 1] *)
Definition is_multi (path : Path.t) : bool := (1 <? Path.len path)%nat.

(** Lines 108-116: the values of [single_segment_lines] and
    [short_trends] when line 118 is reached. *)
Definition split_single_segment_lines (paths : list Path.t)
  : list Path.t * list Path.t :=
  let single_segment_lines := filter is_single paths in
  let short_trends : list Path.t := [] in
  if (5 <? List.length single_segment_lines)%nat then
    let single_segment_lines :=
      sort_by_key Path.length single_segment_lines in
    let short_trends :=
      firstn (List.length single_segment_lines - 5)%nat single_segment_lines in
    let single_segment_lines := firstn 5 single_segment_lines in
    (single_segment_lines, short_trends)
  else (single_segment_lines, short_trends).

(** Lines 120-121. *)
Definition collapse (y_lines : list Q) : list Q :=
  if (List.length y_lines =? 5)%nat then
    [nth 0 y_lines 0; nth 2 y_lines 0; last y_lines 0]
  else y_lines.

(** Lines 141-143: the loop over the continuous sub-paths of one trend. *)
Fixpoint subpath_loop (subs : list Path.t) (points : list complex)
  : result (list complex) :=
  match subs with
  | [] => Ok points
  | sub_path :: subs' =>
      let points := points ++ map Segment.start sub_path in
      (e <- Path.end_ sub_path ;;
       subpath_loop subs' (points ++ [e]))%result
  end.

(** Lines 131-143: the loop over the trends. *)
Fixpoint trend_loop (trends : list Path.t) (points : list complex)
  : result (list complex) :=
  match trends with
  | [] => Ok points
  | trend :: trends' =>
      (s <- Path.getitem0 trend ;;
       points <-
         (if Segment.is_CubicBezier s then
            let '(point_xmin, point_xmax, point_ymin, point_ymax) :=
              Path.bbox trend in
            let xmid := (point_xmin + point_xmax) / 2 in
            let ymid := (point_ymin + point_ymax) / 2 in
            Ok (points ++ [Complex xmid ymid])
          else subpath_loop (Path.continuous_subpaths trend) points) ;;
       trend_loop trends' points)%result
  end.

(** Line 118: [sorted([path.start.imag for path in single_segment_lines])]. *)
Definition sorted_start_imag (single_segment_lines : list Path.t)
  : result (list Q) :=
  (ys <- traverse (fun path => s <- Path.start path ;; Ok (imag s))
                  single_segment_lines ;;
   Ok (sorted ys))%result.

Definition categorise_paths (paths : list Path.t)
  : result ((Q * Q) * list Q * list complex) :=
  let '(single_segment_lines, short_trends) :=
    split_single_segment_lines paths in
  (y_lines <- sorted_start_imag single_segment_lines ;;
   let y_lines := collapse y_lines in
   let points : list complex := [] in
   if (List.length y_lines =? 3)%nat then
     xlims <- traverse (fun path =>
                          s <- Path.start path ;;
                          e <- Path.end_ path ;;
                          Ok (real s, real e))
                       (filter is_single paths) ;;
     xlim <- match nth_error xlims 1 with
             | Some x => Ok x
             | None => Raise IndexError
             end ;;
     let trends := filter is_multi paths ++ short_trends in
     points <- trend_loop trends points ;;
     let y_lines := sorted_reverse y_lines in
     Ok (xlim, y_lines, points)
   else
     Raise (ValueError
              ("Wrong number of y_lines: " ++ str (List.length y_lines))%string))%result.
End Classifier.

(** ** convert_units *)

(** Lines 174-181: the loop over the trend points. *)
Fixpoint convert_loop (trend : list complex) (xmin x_scale ymid y_scale : Q)
    (yspan : Q) (xspan : Z) (trend_plot_coords : list (Z * Q))
  : result (list (Z * Q)) :=
  match trend with
  | [] => Ok trend_plot_coords
  | point :: trend' =>
      let x := real point in
      let y := imag point in
      (qx <- truediv (x - xmin) x_scale ;;
       let x_out := (1 + round (inject_Z xspan * qx))%Z in
       qy <- truediv (ymid - y) y_scale ;;
       let y_out := yspan * qy in
       convert_loop trend' xmin x_scale ymid y_scale yspan xspan
                    (trend_plot_coords ++ [(x_out, y_out)]))%result
  end.

Definition convert_units (trend : list complex) (line_y : list Q)
    (xlim : Q * Q) (yspan : Q) (xspan : Z) : result (list (Z * Q)) :=
  let '(xmin, xmax) := xlim in
  let x_scale := xmax - xmin in
  match line_y with
  | [ymax; ymid; ymin] =>
      let y_scale := (Qabs (ymax - ymid) + Qabs (ymid - ymin)) / 2 in
      convert_loop trend xmin x_scale ymid y_scale yspan xspan []
  | _ => Raise UnpackError
  end.

(** ** categorise_paths on a store of list objects

    Python lists are mutable objects and [list.sort] works in place.  To
    say what a call does to the caller's list, the lists of paths become
    objects in a store: a reference is the index of its object, a list
    comprehension, a slice and [+] allocate a new object, and
    [single_segment_lines.sort(...)] overwrites the object it is called
    on.  Paths are only read. *)

Module Store.
Definition ref : Type := nat.
Definition t : Type := list (list Path.t).

(** A computation reads and writes the store, and returns or raises. *)
Definition M (A : Type) : Type := t -> result A * t.

Definition ret {A : Type} (a : A) : M A := fun h => (Ok a, h).

Definition bind {A B : Type} (m : M A) (k : A -> M B) : M B :=
  fun h =>
    match m h with
    | (Ok a, h') => k a h'
    | (Raise e, h') => (Raise e, h')
    end.

(** A pure, possibly raising, expression. *)
Definition lift {A : Type} (r : result A) : M A := fun h => (r, h).

(** The contents of an object. *)
Definition get (r : ref) : M (list Path.t) := fun h => (Ok (nth r h []), h).

(** A new list object. *)
Definition alloc (l : list Path.t) : M ref :=
  fun h => (Ok (List.length h), h ++ [l]).

Fixpoint update (r : ref) (l : list Path.t) (h : t) : t :=
  match h, r with
  | [], _ => []
  | _ :: h', O => l :: h'
  | x :: h', S r' => x :: update r' l h'
  end.

(** [r.sort(key=key)]: the object is overwritten with its sorted
    contents. *)
Definition sort (key : Path.t -> Q) (r : ref) : M unit :=
  fun h => (Ok tt, update r (sort_by_key key (nth r h [])) h).
End Store.

Declare Scope store_scope.
Delimit Scope store_scope with store.
Notation "x <- c ;; k" := (Store.bind c (fun x => k))
  (at level 61, c at next level, right associativity) : store_scope.
Notation "c ;; k" := (Store.bind c (fun _ => k))
  (at level 61, right associativity) : store_scope.

Section ClassifierStore.
Context {G : Path.Geometry}.

(** Lines 108-116 on the store; returns the objects that
    [single_segment_lines] and [short_trends] are bound to afterwards. *)
Definition split_single_segment_lines_st (paths : Store.ref)
  : Store.M (Store.ref * Store.ref) :=
  (ps <- Store.get paths ;;
   single_segment_lines <- Store.alloc (filter is_single ps) ;;
   short_trends <- Store.alloc [] ;;
   l <- Store.get single_segment_lines ;;
   if (5 <? List.length l)%nat then
     Store.sort Path.length single_segment_lines ;;
     l <- Store.get single_segment_lines ;;
     short_trends <- Store.alloc (firstn (List.length l - 5)%nat l) ;;
     l <- Store.get single_segment_lines ;;
     single_segment_lines <- Store.alloc (firstn 5 l) ;;
     Store.ret (single_segment_lines, short_trends)
   else Store.ret (single_segment_lines, short_trends))%store.

Definition categorise_paths_st (paths : Store.ref)
  : Store.M ((Q * Q) * list Q * list complex) :=
  (refs <- split_single_segment_lines_st paths ;;
   let '(single_segment_lines, short_trends) := refs in
   l <- Store.get single_segment_lines ;;
   y_lines <- Store.lift (sorted_start_imag l) ;;
   let y_lines := collapse y_lines in
   if (List.length y_lines =? 3)%nat then
     ps <- Store.get paths ;;
     xlims <- Store.lift
                (traverse (fun path =>
                             s <- Path.start path ;;
                             e <- Path.end_ path ;;
                             Ok (real s, real e))%result
                          (filter is_single ps)) ;;
     xlim <- Store.lift match nth_error xlims 1 with
                        | Some x => Ok x
                        | None => Raise IndexError
                        end ;;
     ps <- Store.get paths ;;
     multi <- Store.alloc (filter is_multi ps) ;;
     m <- Store.get multi ;;
     s <- Store.get short_trends ;;
     trends <- Store.alloc (m ++ s) ;;
     l <- Store.get trends ;;
     points <- Store.lift (trend_loop l []) ;;
     Store.ret (xlim, sorted_reverse y_lines, points)
   else
     Store.lift
       (Raise (ValueError
                 ("Wrong number of y_lines: "
                    ++ str (List.length y_lines))%string)))%store.
End ClassifierStore.

(** ** The specification's formulas *)

(** Section 4.1 step 7: the samples one trend primitive contributes. *)
Definition trend_samples {G : Path.Geometry} (trend : Path.t)
  : list complex :=
  match trend with
  | Segment.CubicBezier _ _ _ _ :: _ =>
      let '(x0, x1, y0, y1) := Path.bbox trend in
      [Complex ((x0 + x1) / 2) ((y0 + y1) / 2)]
  | _ =>
      flat_map (fun sub => map Segment.start sub
                             ++ match rev sub with
                                | s :: _ => [Segment.end_ s]
                                | [] => []
                                end)
               (Path.continuous_subpaths trend)
  end.

(** A run of segments is continuous: each end is the next start. *)
Fixpoint continuous (p : Path.t) : Prop :=
  match p with
  | s :: ((s' :: _) as p') =>
      complex_eqb (Segment.end_ s) (Segment.start s') = true /\ continuous p'
  | _ => True
  end.

(** Consecutive runs do not join: where one run stops and the next one
    starts, the end is not the start. *)
Fixpoint broken (subs : list Path.t) : Prop :=
  match subs with
  | sub :: ((sub' :: _) as subs') =>
      (forall s s', hd_error (rev sub) = Some s -> hd_error sub' = Some s' ->
                    complex_eqb (Segment.end_ s) (Segment.start s') = false)
      /\ broken subs'
  | _ => True
  end.

(** ** Example drawings

    The examples use axis-aligned straight lines, for which the arc length
    and the bounding box are rational. *)

Definition axis_length (p : Path.t) : Q :=
  fold_right (fun s acc =>
                Qabs (real (Segment.end_ s) - real (Segment.start s))
                + Qabs (imag (Segment.end_ s) - imag (Segment.start s)) + acc)
             0 p.

Definition Qmin (a b : Q) : Q := if Qle_bool a b then a else b.
Definition Qmax (a b : Q) : Q := if Qle_bool a b then b else a.

Definition ends_bbox (p : Path.t) : Q * Q * Q * Q :=
  match p with
  | [] => (0, 0, 0, 0)
  | s :: _ =>
      let z := Segment.start s in
      fold_right (fun s '(x0, x1, y0, y1) =>
                    let a := Segment.start s in
                    let b := Segment.end_ s in
                    (Qmin (Qmin (real a) (real b)) x0,
                     Qmax (Qmax (real a) (real b)) x1,
                     Qmin (Qmin (imag a) (imag b)) y0,
                     Qmax (Qmax (imag a) (imag b)) y1))
                 (real z, real z, imag z, imag z) p
  end.

Definition axis_geometry : Path.Geometry :=
  {| Path.length := axis_length; Path.bbox := ends_bbox |}.

(** A horizontal line from [(x0, y)] to [(x1, y)] as a one-segment path. *)
Definition hline (x0 x1 y : Q) : Path.t :=
  [Segment.Line (Complex x0 y) (Complex x1 y)].

(** A polyline through the given points. *)
Fixpoint polyline (a : complex) (l : list complex) : Path.t :=
  match l with
  | [] => []
  | b :: l' => Segment.Line a b :: polyline b l'
  end.

(** Five grid lines of length 420 at y = 10, 30, 50, 70, 90. *)
Definition grid5 : list Path.t :=
  [hline 0 420 10; hline 0 420 30; hline 0 420 50; hline 0 420 70;
   hline 0 420 90].

(** The five grid lines and one tick of length 5 at y = 95. *)
Definition grid5_tick : list Path.t := grid5 ++ [hline 0 5 95].

(** A drawing whose second single-segment primitive is a tick from x = 2
    to x = 7, ahead of four of the five grid lines. *)
Definition tick_second : list Path.t :=
  [hline 0 420 10; hline 2 7 95; hline 0 420 30; hline 0 420 50;
   hline 0 420 70; hline 0 420 90].

(** Three grid lines, a polyline with a break between (20, 60) and
    (30, 20), and a curve of two cubic segments lying on the line
    y = 40 from x = 0 to x = 6. *)
Definition two_trends : list Path.t :=
  [hline 0 420 10; hline 0 420 50; hline 0 420 90;
   [Segment.Line (Complex 0 50) (Complex 10 40);
    Segment.Line (Complex 10 40) (Complex 20 60);
    Segment.Line (Complex 30 20) (Complex 40 30)];
   [Segment.CubicBezier (Complex 0 40) (Complex 1 40) (Complex 2 40)
                        (Complex 3 40);
    Segment.CubicBezier (Complex 3 40) (Complex 4 40) (Complex 5 40)
                        (Complex 6 40)]].

(** ** main: the conversion of one drawing *)

Definition Y_AXIS_SPAN : Q := 80.
Definition X_AXIS_SPAN : Z := 42.

(** Lines 54-58: the value of [trend_converted] for the paths of one
    file. *)
Definition trend_converted {G : Path.Geometry} (paths : list Path.t)
  : result (list (Z * Q)) :=
  (r <- categorise_paths paths ;;
   let '(xlim, y_lines, trend) := r in
   convert_units trend y_lines xlim Y_AXIS_SPAN X_AXIS_SPAN)%result.

(** ** main: file names

    [s.split(sep)] for a separator of one character: the pieces of [s]
    between the separators, an empty piece included; there is always at
    least one piece. *)
Fixpoint str_split (sep : ascii) (s : string) : list string :=
  match s with
  | EmptyString => [EmptyString]
  | String c s' =>
      if Ascii.eqb c sep then EmptyString :: str_split sep s'
      else match str_split sep s' with
           | w :: ws => String c w :: ws
           | [] => [String c EmptyString]
           end
  end.

(** [sep.join(l)] *)
Fixpoint str_join (sep : ascii) (l : list string) : string :=
  match l with
  | [] => EmptyString
  | [w] => w
  | w :: l' => (w ++ String sep (str_join sep l'))%string
  end.

(** [c in s] *)
Fixpoint contains (c : ascii) (s : string) : bool :=
  match s with
  | EmptyString => false
  | String c' s' => Ascii.eqb c' c || contains c s'
  end.

(** Line 40: [input_folder.split("/")[-1]]. *)
Definition location (input_folder : string) : string :=
  last (str_split "/" input_folder) EmptyString.

(** Lines 60-62: the new value of [filename], the output path without its
    extension. *)
Definition output_filename (output_folder input_folder filename : string)
  : string :=
  (output_folder ++ "/" ++ last (str_split "/" input_folder) EmptyString
     ++ "-" ++ hd EmptyString (str_split "." filename))%string.

(** Lines 77-80: the graph number, computed from the new [filename]; the
    [IndexError] of the index 1 is caught. *)
Definition graph_num (filename : string) : string :=
  match nth_error
          (str_split "-" (hd EmptyString (str_split "." filename))) 1 with
  | Some g => g
  | None => hd EmptyString (str_split "." filename)
  end.

(** Three grid lines and a polyline through four points. *)
Definition grid3_polyline : list Path.t :=
  [hline 0 420 10; hline 0 420 50; hline 0 420 90;
   polyline (Complex 0 50) [Complex 10 40; Complex 20 60; Complex 30 20]].

(** ** convert_units on doubles

    Python's [float] is the IEEE 754 binary64 format, and each operation
    of lines 168-179 rounds its result to it.  Here the numbers are
    [spec_float]s, the operations are those of the standard library's
    specification of binary64 (precision 53, [emax] 1024, rounding to
    nearest even), and [round] and [/] raise as Python's do. *)

Module Double.
Definition t : Type := spec_float.

Definition add : t -> t -> t := SFadd 53 1024.
Definition sub : t -> t -> t := SFsub 53 1024.
Definition mul : t -> t -> t := SFmul 53 1024.
Definition div : t -> t -> t := SFdiv 53 1024.

(** [abs(x)] *)
Definition abs : t -> t := SFabs.

(** The double nearest to an integer. *)
Definition of_Z (z : Z) : t := binary_normalize 53 1024 z 0 false.

Definition one : t := S754_finite false 4503599627370496 (-52).
Definition two : t := S754_finite false 4503599627370496 (-51).

(** [x == y]: false on a NaN, true of the two zeros. *)
Definition eqb (x y : t) : bool := SFeqb x y.

(** [x == 0], true of both zeros. *)
Definition is_zero (x : t) : bool := SFeqb x (S754_zero false).

(** The value of a finite double. *)
Definition to_Q (s : bool) (m : positive) (e : Z) : Q :=
  let n := if s then Zneg m else Zpos m in
  match e with
  | Z0 => n # 1
  | Zpos p => (n * Zpos (2 ^ p)) # 1
  | Zneg p => n # (2 ^ p)
  end.

(** [round(x)]: the integer nearest to the value of [x], a tie going to
    the even one; an infinity and a NaN raise. *)
Definition round (x : t) : result Z :=
  match x with
  | S754_zero _ => Ok 0%Z
  | S754_finite s m e => Ok (round (to_Q s m e))
  | S754_infinity _ => Raise OverflowError
  | S754_nan => Raise (ValueError "cannot convert float NaN to integer")
  end.

(** [a / b]: a zero divisor raises. *)
Definition truediv (a b : t) : result t :=
  if is_zero b then Raise ZeroDivisionError else Ok (div a b).

(** The conversion of an [int] operand of a float operation; an [int]
    beyond the range of the doubles raises. *)
Definition of_int (z : Z) : result t :=
  match of_Z z with
  | S754_zero s => Ok (S754_zero s)
  | S754_finite s m e => Ok (S754_finite s m e)
  | _ => Raise OverflowError
  end.
End Double.

(** A Python [complex] with double parts. *)
Record dcomplex : Type := DComplex { dreal : Double.t; dimag : Double.t }.

Module OnDoubles.
(** Lines 174-181. *)
Fixpoint convert_loop (trend : list dcomplex)
    (xmin x_scale ymid y_scale yspan : Double.t) (xspan : Z)
    (trend_plot_coords : list (Z * Double.t))
  : result (list (Z * Double.t)) :=
  match trend with
  | [] => Ok trend_plot_coords
  | point :: trend' =>
      let x := dreal point in
      let y := dimag point in
      (qx <- Double.truediv (Double.sub x xmin) x_scale ;;
       fx <- Double.of_int xspan ;;
       r <- Double.round (Double.mul fx qx) ;;
       let x_out := (1 + r)%Z in
       qy <- Double.truediv (Double.sub ymid y) y_scale ;;
       let y_out := Double.mul yspan qy in
       convert_loop trend' xmin x_scale ymid y_scale yspan xspan
                    (trend_plot_coords ++ [(x_out, y_out)]))%result
  end.

(** Lines 167-182, with [xspan] an [int] and [yspan] a double. *)
Definition convert_units (trend : list dcomplex) (line_y : list Double.t)
    (xlim : Double.t * Double.t) (yspan : Double.t) (xspan : Z)
  : result (list (Z * Double.t)) :=
  let '(xmin, xmax) := xlim in
  let x_scale := Double.sub xmax xmin in
  match line_y with
  | [ymax; ymid; ymin] =>
      let y_scale :=
        Double.div (Double.add (Double.abs (Double.sub ymax ymid))
                               (Double.abs (Double.sub ymid ymin)))
                   Double.two in
      convert_loop trend xmin x_scale ymid y_scale yspan xspan []
  | _ => Raise UnpackError
  end.

(** The pair the call owes for the sample [p]: neither scale is zero, and
    the pair is computed by the operations of lines 178-179, in their
    order. *)
Definition pair_of (xmin x_scale baseline y_scale yspan : Double.t)
    (xspan : Z) (p : dcomplex) (o : Z * Double.t) : Prop :=
  Double.is_zero x_scale = false /\ Double.is_zero y_scale = false
  /\ exists fx r,
      Double.of_int xspan = Ok fx
      /\ Double.round
           (Double.mul fx (Double.div (Double.sub (dreal p) xmin) x_scale))
         = Ok r
      /\ o = ((1 + r)%Z,
              Double.mul yspan
                (Double.div (Double.sub baseline (dimag p)) y_scale)).
End OnDoubles.

(** * Lemmas *)

(** ** Rounding *)

Lemma round_comp (q q' : Q) : q == q' -> round q = round q'.
Proof.
  intros H. unfold round.
  rewrite (Qfloor_comp q q' H).
  assert (E : Qcompare (q - inject_Z (Qfloor q')) (1 # 2)
              = Qcompare (q' - inject_Z (Qfloor q')) (1 # 2)).
  { apply Qcompare_comp; [rewrite H; reflexivity | reflexivity]. }
  rewrite E. reflexivity.
Qed.

Lemma round_bounds (q : Q) : (Qfloor q <= round q <= Qfloor q + 1)%Z.
Proof.
  unfold round.
  destruct (Qcompare (q - inject_Z (Qfloor q)) (1 # 2)); try lia.
  destruct (Z.even (Qfloor q)); lia.
Qed.

Lemma round_inject_Z (z : Z) : round (inject_Z z) = z.
Proof.
  unfold round. rewrite Qfloor_Z.
  assert (E : Qcompare (inject_Z z - inject_Z z) (1 # 2) = Lt).
  { rewrite <- Qlt_alt. setoid_replace (inject_Z z - inject_Z z) with 0 by ring.
    reflexivity. }
  rewrite E. reflexivity.
Qed.

Lemma round_mono (q1 q2 : Q) : q1 <= q2 -> (round q1 <= round q2)%Z.
Proof.
  intros H.
  pose proof (Qfloor_resp_le _ _ H) as Hf.
  pose proof (round_bounds q1) as B1.
  pose proof (round_bounds q2) as B2.
  destruct (Z.eq_dec (Qfloor q1) (Qfloor q2)) as [E | NE]; [| lia].
  unfold round. rewrite <- E.
  destruct (Qcompare_spec (q1 - inject_Z (Qfloor q1)) (1 # 2)) as [H1 | H1 | H1];
    destruct (Qcompare_spec (q2 - inject_Z (Qfloor q1)) (1 # 2)) as [H2 | H2 | H2];
    try (destruct (Z.even (Qfloor q1))); try lia; exfalso; lra.
Qed.

(** ** Sorting *)

Section SortFacts.
Variable A : Type.
Variable leb : A -> A -> bool.

Lemma insert_perm (x : A) (l : list A) : Permutation (insert leb x l) (x :: l).
Proof.
  induction l as [| y l IH]; simpl.
  - apply Permutation_refl.
  - destruct (leb x y).
    + apply Permutation_refl.
    + apply perm_trans with (y :: x :: l).
      * apply perm_skip. exact IH.
      * apply perm_swap.
Qed.

Lemma sort_with_perm (l : list A) : Permutation (sort_with leb l) l.
Proof.
  induction l as [| x l IH]; simpl.
  - apply perm_nil.
  - apply perm_trans with (x :: sort_with leb l).
    + apply insert_perm.
    + apply perm_skip. exact IH.
Qed.

Lemma sort_with_length (l : list A) :
  List.length (sort_with leb l) = List.length l.
Proof. apply Permutation_length, sort_with_perm. Qed.

Lemma sort_with_Forall (P : A -> Prop) (l : list A) :
  Forall P l -> Forall P (sort_with leb l).
Proof.
  intros H. apply (Permutation_Forall (Permutation_sym (sort_with_perm l))).
  exact H.
Qed.

Hypothesis leb_total : forall a b, leb a b = true \/ leb b a = true.

Lemma insert_sorted (x : A) (l : list A) :
  Sorted (fun a b => leb a b = true) l ->
  Sorted (fun a b => leb a b = true) (insert leb x l).
Proof.
  induction 1 as [| y l Hs IH Hy]; simpl.
  - repeat constructor.
  - destruct (leb x y) eqn:E.
    + constructor; [constructor; assumption | constructor; exact E].
    + constructor; [exact IH |].
      assert (Hyx : leb y x = true).
      { destruct (leb_total x y); congruence. }
      destruct Hy as [| z l' Hz]; simpl.
      * constructor. exact Hyx.
      * destruct (leb x z); constructor; assumption.
Qed.

Lemma sort_with_sorted (l : list A) :
  Sorted (fun a b => leb a b = true) (sort_with leb l).
Proof.
  induction l as [| x l IH]; simpl.
  - constructor.
  - apply insert_sorted. exact IH.
Qed.
End SortFacts.

Lemma sorted_length (l : list Q) : List.length (sorted l) = List.length l.
Proof. apply sort_with_length. Qed.

Lemma sorted_perm (l : list Q) : Permutation (sorted l) l.
Proof. apply sort_with_perm. Qed.

(** [sorted] returns an ascending list. *)
Lemma sorted_ascending (l : list Q) : StronglySorted Qle (sorted l).
Proof.
  apply Sorted_StronglySorted.
  - intros a b c. apply Qle_trans.
  - assert (H : Sorted (fun a b => Qle_bool a b = true) (sorted l)).
    { apply sort_with_sorted. intros a b.
      destruct (Qlt_le_dec b a) as [L | L].
      - right. apply Qle_bool_iff, Qlt_le_weak, L.
      - left. apply Qle_bool_iff, L. }
    induction H as [| y l' Hs IH Hy]; constructor.
    + exact IH.
    + destruct Hy; constructor. apply Qle_bool_iff. assumption.
Qed.

(** [l.sort(key=...)] returns a list ascending in the key. *)
Lemma sort_by_key_ascending {A : Type} (key : A -> Q) (l : list A) :
  StronglySorted (fun a b => key a <= key b) (sort_by_key key l).
Proof.
  apply Sorted_StronglySorted.
  - intros a b c. apply Qle_trans.
  - assert (H : Sorted (fun a b => Qle_bool (key a) (key b) = true)
                       (sort_by_key key l)).
    { apply sort_with_sorted. intros a b.
      destruct (Qlt_le_dec (key b) (key a)) as [L | L].
      - right. apply Qle_bool_iff, Qlt_le_weak, L.
      - left. apply Qle_bool_iff, L. }
    induction H as [| y l' Hs IH Hy]; constructor.
    + exact IH.
    + destruct Hy; constructor. apply Qle_bool_iff. assumption.
Qed.

(** Three ascending numbers, sorted in reverse. *)
Lemma sorted_reverse_3 (a b c : Q) :
  a <= b -> b <= c -> Forall2 Qeq (sorted_reverse [a; b; c]) [c; b; a].
Proof.
  intros Hab Hbc. unfold sorted_reverse, sort_with. simpl.
  destruct (Qle_bool c b) eqn:Ecb; simpl;
    destruct (Qle_bool b a) eqn:Eba; simpl;
    try destruct (Qle_bool c a) eqn:Eca; simpl;
    repeat match goal with
           | H : Qle_bool _ _ = true |- _ => apply Qle_bool_iff in H
           end;
    repeat constructor; try lra.
Qed.

Lemma sorted_reverse_length (l : list Q) :
  List.length (sorted_reverse l) = List.length l.
Proof. apply sort_with_length. Qed.

(** ** Paths and their continuous sub-paths *)

Lemma end__snoc (p : Path.t) (s : Segment.t) :
  Path.end_ (p ++ [s]) = Ok (Segment.end_ s).
Proof.
  induction p as [| s0 p IH]; simpl.
  - reflexivity.
  - rewrite IH. destruct (p ++ [s]) eqn:E; [| reflexivity].
    destruct p; discriminate.
Qed.

Lemma end__rev (p : Path.t) :
  Path.end_ p = match rev p with
                | s :: _ => Ok (Segment.end_ s)
                | [] => Raise IndexError
                end.
Proof.
  destruct (rev p) as [| s l] eqn:E.
  - apply (f_equal (@rev _)) in E. rewrite rev_involutive in E.
    subst p. reflexivity.
  - apply (f_equal (@rev _)) in E. rewrite rev_involutive in E.
    subst p. simpl. apply end__snoc.
Qed.

Lemma subpaths_from_nonempty (s : Segment.t) (rest : list Segment.t) :
  Path.subpaths_from s rest <> []
  /\ Forall (fun sub => sub <> []) (Path.subpaths_from s rest).
Proof.
  revert s. induction rest as [| s' rest IH]; intros s; simpl.
  - split; [discriminate | repeat constructor; discriminate].
  - destruct (IH s') as [Hne Hall].
    destruct (complex_eqb (Segment.end_ s) (Segment.start s')).
    + destruct (Path.subpaths_from s' rest) as [| r rs]; [congruence |].
      split; [discriminate |].
      inversion Hall; subst. constructor; [discriminate | assumption].
    + split; [discriminate |]. constructor; [discriminate | assumption].
Qed.

(** The sub-paths of a path with a segment are not empty. *)
Lemma continuous_subpaths_nonempty (p : Path.t) :
  p <> [] -> Forall (fun sub => sub <> []) (Path.continuous_subpaths p).
Proof.
  destruct p as [| s rest]; [congruence |]. intros _.
  apply subpaths_from_nonempty.
Qed.

(** Put end to end, the sub-paths are the path. *)
Lemma continuous_subpaths_concat (p : Path.t) :
  List.concat (Path.continuous_subpaths p) = p.
Proof.
  destruct p as [| s rest]; [reflexivity |]. simpl.
  revert s. induction rest as [| s' rest IH]; intros s; simpl.
  - reflexivity.
  - specialize (IH s').
    destruct (complex_eqb (Segment.end_ s) (Segment.start s')).
    + destruct (Path.subpaths_from s' rest) as [| r rs]; simpl in *.
      * discriminate.
      * rewrite IH. reflexivity.
    + simpl. rewrite IH. reflexivity.
Qed.

Lemma subpaths_from_head (s : Segment.t) (rest : list Segment.t) :
  exists r rs, Path.subpaths_from s rest = (s :: r) :: rs.
Proof.
  revert s. induction rest as [| s' rest IH]; intros s; simpl.
  - exists [], []. reflexivity.
  - destruct (IH s') as (r & rs & E). rewrite E.
    destruct (complex_eqb (Segment.end_ s) (Segment.start s')).
    + exists (s' :: r), rs. reflexivity.
    + exists [], ((s' :: r) :: rs). reflexivity.
Qed.

(** Every sub-path is continuous. *)
Lemma continuous_subpaths_continuous (p : Path.t) :
  Forall continuous (Path.continuous_subpaths p).
Proof.
  destruct p as [| s rest]; simpl.
  - repeat constructor.
  - revert s. induction rest as [| s' rest IH]; intros s; simpl.
    + repeat constructor.
    + specialize (IH s').
      destruct (subpaths_from_head s' rest) as (r & rs & E).
      rewrite E in *. inversion IH; subst.
      destruct (complex_eqb (Segment.end_ s) (Segment.start s')) eqn:C.
      * constructor; [| assumption]. simpl. split; assumption.
      * constructor; [exact I |]. constructor; assumption.
Qed.

(** Every sub-path is maximal: it does not join the one after it. *)
Lemma continuous_subpaths_broken (p : Path.t) :
  broken (Path.continuous_subpaths p).
Proof.
  destruct p as [| s rest]; simpl.
  - exact I.
  - revert s. induction rest as [| s' rest IH]; intros s; simpl.
    + exact I.
    + specialize (IH s').
      destruct (subpaths_from_head s' rest) as (r & rs & E).
      rewrite E in *.
      destruct (complex_eqb (Segment.end_ s) (Segment.start s')) eqn:C.
      * destruct rs as [| sub' rs]; [exact I |].
        destruct IH as [IH1 IH2]. split; [| exact IH2].
        intros a b Ha Hb. apply IH1; [| exact Hb].
        simpl in Ha |- *.
        destruct (rev r ++ [s']) eqn:R; [destruct (rev r); discriminate |].
        simpl in Ha. exact Ha.
      * split; [| exact IH].
        intros a b Ha Hb. simpl in Ha, Hb.
        injection Ha as <-. injection Hb as <-. exact C.
Qed.

(** ** The sampling loops *)

Section SamplingFacts.
Context {G : Path.Geometry}.

Lemma subpath_loop_spec (subs : list Path.t) (points : list complex) :
  Forall (fun sub => sub <> []) subs ->
  subpath_loop subs points
  = Ok (points
          ++ flat_map (fun sub => map Segment.start sub
                                    ++ match rev sub with
                                       | s :: _ => [Segment.end_ s]
                                       | [] => []
                                       end) subs).
Proof.
  intros H. revert points.
  induction H as [| sub subs Hne _ IH]; intros points; simpl.
  - rewrite app_nil_r. reflexivity.
  - rewrite end__rev.
    destruct (rev sub) as [| s l] eqn:R.
    + apply (f_equal (@rev _)) in R. rewrite rev_involutive in R.
      contradiction.
    + simpl. rewrite IH. rewrite <- !app_assoc. reflexivity.
Qed.

(** The loop over the trends appends, trend by trend, the samples of
    section 4.1 step 7. *)
Lemma trend_loop_spec (trends : list Path.t) (points : list complex) :
  Forall (fun trend => trend <> []) trends ->
  trend_loop trends points = Ok (points ++ flat_map trend_samples trends).
Proof.
  intros H. revert points.
  induction H as [| trend trends Hne _ IH]; intros points; simpl.
  - rewrite app_nil_r. reflexivity.
  - destruct trend as [| s rest]; [contradiction |].
    cbn [Path.getitem0 bind].
    assert (Hsub : subpath_loop (Path.continuous_subpaths (s :: rest)) points
                   = Ok (points
                           ++ flat_map (fun sub => map Segment.start sub
                                    ++ match rev sub with
                                       | s :: _ => [Segment.end_ s]
                                       | [] => []
                                       end)
                                (Path.continuous_subpaths (s :: rest)))).
    { apply subpath_loop_spec, continuous_subpaths_nonempty. discriminate. }
    unfold trend_samples.
    destruct s; cbn [Segment.is_CubicBezier];
      try (rewrite Hsub; cbn [bind]; rewrite IH, <- app_assoc; reflexivity).
    destruct (Path.bbox _) as [[[x0 x1] y0] y1].
    cbn [bind]. rewrite IH, <- app_assoc. reflexivity.
Qed.
End SamplingFacts.

(** ** List comprehensions *)

Lemma traverse_ok {A B : Type} (f : A -> result B) (l : list A) :
  (forall a, In a l -> exists b, f a = Ok b) ->
  exists bs, traverse f l = Ok bs /\ List.length bs = List.length l.
Proof.
  induction l as [| a l IH]; intros H; simpl.
  - exists []. split; reflexivity.
  - destruct (H a (or_introl eq_refl)) as [b Hb]. rewrite Hb. simpl.
    destruct IH as (bs & E & L).
    { intros a' Ha'. apply H. right. exact Ha'. }
    rewrite E. simpl. exists (b :: bs). split; [reflexivity |].
    simpl. rewrite L. reflexivity.
Qed.

Lemma traverse_nth_error {A B : Type} (f : A -> result B) (l : list A)
    (bs : list B) (i : nat) (b : B) :
  traverse f l = Ok bs -> nth_error bs i = Some b ->
  exists a, nth_error l i = Some a /\ f a = Ok b.
Proof.
  revert bs i. induction l as [| a l IH]; intros bs i; simpl.
  - intros [= <-]. destruct i; discriminate.
  - destruct (f a) as [b0 |] eqn:Fa; simpl; [| discriminate].
    destruct (traverse f l) as [bs0 |] eqn:T; simpl; [| discriminate].
    intros [= <-]. destruct i as [| i]; simpl.
    + intros [= <-]. exists a. split; [reflexivity | exact Fa].
    + intros Hb. apply (IH bs0 i eq_refl Hb).
Qed.

(** ** The classification *)

Section ClassifierFacts.
Context {G : Path.Geometry}.

Lemma is_single_inv (p : Path.t) : is_single p = true -> exists s, p = [s].
Proof.
  unfold is_single, Path.len. intros H. apply Nat.eqb_eq in H.
  destruct p as [| s [| s' p]]; try discriminate. exists s. reflexivity.
Qed.

Lemma is_multi_nonempty (p : Path.t) : is_multi p = true -> p <> [].
Proof. destruct p; [discriminate | discriminate]. Qed.

Lemma filter_Forall {A : Type} (f : A -> bool) (l : list A) :
  Forall (fun a => f a = true) (filter f l).
Proof. apply Forall_forall. intros a Ha. apply filter_In in Ha. tauto. Qed.

Lemma firstn_Forall {A : Type} (P : A -> Prop) (n : nat) (l : list A) :
  Forall P l -> Forall P (firstn n l).
Proof.
  intros H. revert n. induction H; intros [| n]; simpl; constructor; auto.
Qed.

(** Both lists of lines 108-116 hold single-segment paths only. *)
Lemma split_single (paths : list Path.t) :
  Forall (fun p => is_single p = true) (fst (split_single_segment_lines paths))
  /\ Forall (fun p => is_single p = true)
            (snd (split_single_segment_lines paths)).
Proof.
  unfold split_single_segment_lines.
  destruct (5 <? List.length (filter is_single paths))%nat; cbn [fst snd].
  - split; apply firstn_Forall, sort_with_Forall, filter_Forall.
  - split; [apply filter_Forall | constructor].
Qed.

(** At most five candidates are kept. *)
Lemma split_length (paths : list Path.t) :
  List.length (fst (split_single_segment_lines paths))
  = Nat.min (List.length (filter is_single paths)) 5.
Proof.
  unfold split_single_segment_lines.
  destruct (5 <? List.length (filter is_single paths))%nat eqn:E;
    cbn [fst snd].
  - apply Nat.ltb_lt in E. rewrite length_firstn.
    unfold sort_by_key. rewrite sort_with_length. lia.
  - apply Nat.ltb_ge in E. lia.
Qed.

(** With at most five single-segment paths nothing is reclassified. *)
Lemma split_small (paths : list Path.t) :
  (List.length (filter is_single paths) <= 5)%nat ->
  split_single_segment_lines paths = (filter is_single paths, []).
Proof.
  intros H. unfold split_single_segment_lines.
  apply Nat.ltb_ge in H. rewrite H. reflexivity.
Qed.

Lemma sorted_start_imag_ok (l : list Path.t) :
  Forall (fun p => is_single p = true) l ->
  exists ys, sorted_start_imag l = Ok ys
             /\ List.length ys = List.length l
             /\ StronglySorted Qle ys.
Proof.
  intros H. unfold sorted_start_imag.
  destruct (traverse_ok
              (fun path => (s <- Path.start path ;; Ok (imag s))%result) l)
    as (ys & E & L).
  { intros p Hp. rewrite Forall_forall in H.
    destruct (is_single_inv p (H p Hp)) as [s ->]. simpl. eauto. }
  rewrite E. simpl. exists (sorted ys). split; [reflexivity |]. split.
  - rewrite sorted_length. exact L.
  - apply sorted_ascending.
Qed.

Lemma collapse_length (ys : list Q) :
  List.length (collapse ys)
  = if (List.length ys =? 5)%nat then 3%nat else List.length ys.
Proof. unfold collapse. destruct (List.length ys =? 5)%nat; reflexivity. Qed.

Lemma trends_nonempty (paths : list Path.t) :
  Forall (fun trend => trend <> [])
         (filter is_multi paths ++ snd (split_single_segment_lines paths)).
Proof.
  apply Forall_app. split.
  - eapply Forall_impl; [| apply filter_Forall].
    intros p. apply is_multi_nonempty.
  - eapply Forall_impl; [| apply (split_single paths)].
    intros p Hp. destruct (is_single_inv p Hp) as [s ->]. discriminate.
Qed.

(** What [categorise_paths] does, by the number of reference lines left
    after lines 118-121. *)
Lemma categorise_paths_cases (paths : list Path.t) :
  exists ys,
    sorted_start_imag (fst (split_single_segment_lines paths)) = Ok ys
    /\ List.length ys = Nat.min (List.length (filter is_single paths)) 5
    /\ StronglySorted Qle ys
    /\ ((List.length (collapse ys) <> 3%nat
         /\ categorise_paths paths
            = Raise (ValueError
                       ("Wrong number of y_lines: "
                          ++ str (List.length (collapse ys)))%string))
        \/ (List.length (collapse ys) = 3%nat
            /\ exists p s e,
                nth_error (filter is_single paths) 1 = Some p
                /\ Path.start p = Ok s /\ Path.end_ p = Ok e
                /\ categorise_paths paths
                   = Ok ((real s, real e), sorted_reverse (collapse ys),
                         flat_map trend_samples
                           (filter is_multi paths
                              ++ snd (split_single_segment_lines paths))))).
Proof.
  destruct (sorted_start_imag_ok (proj1 (split_single paths)))
    as (ys & E & L & S).
  rewrite split_length in L.
  exists ys. split; [exact E |]. split; [exact L |].
  split; [exact S |].
  unfold categorise_paths.
  destruct (split_single_segment_lines paths) as [ssl st] eqn:Sp.
  simpl fst in *. simpl snd in *. rewrite E. cbn [bind].
  destruct (List.length (collapse ys) =? 3)%nat eqn:C.
  - right. apply Nat.eqb_eq in C. split; [exact C |].
    destruct (traverse_ok
                (fun path => (s <- Path.start path ;;
                              e <- Path.end_ path ;;
                              Ok (real s, real e))%result)
                (filter is_single paths)) as (xlims & T & LT).
    { intros p Hp.
      destruct (is_single_inv p (proj2 (proj1 (filter_In _ _ _) Hp)))
        as [s ->].
      simpl. eauto. }
    rewrite T. cbn [bind].
    assert (Hn : (2 <= List.length (filter is_single paths))%nat).
    { rewrite collapse_length in C.
      destruct (List.length ys =? 5)%nat eqn:E5.
      - apply Nat.eqb_eq in E5. lia.
      - lia. }
    destruct (nth_error xlims 1) as [xlim |] eqn:N.
    + destruct (traverse_nth_error _ _ _ T N) as (p & Hp & Fp).
      destruct (Path.start p) as [s |] eqn:Ps; simpl in Fp; [| discriminate].
      destruct (Path.end_ p) as [e |] eqn:Pe; simpl in Fp; [| discriminate].
      injection Fp as <-.
      exists p, s, e. repeat split; try assumption.
      cbn [bind]. rewrite trend_loop_spec.
      * reflexivity.
      * pose proof (trends_nonempty paths) as TN. rewrite Sp in TN. exact TN.
    + apply nth_error_None in N. lia.
  - left. apply Nat.eqb_neq in C. split; [exact C | reflexivity].
Qed.
End ClassifierFacts.

(** ** The unit conversion *)

Lemma truediv_ok (a b : Q) : ~ b == 0 -> truediv a b = Ok (a / b).
Proof.
  intros H. unfold truediv. destruct (Qeq_bool b 0) eqn:E; [| reflexivity].
  apply Qeq_bool_iff in E. contradiction.
Qed.

Lemma truediv_zero (a b : Q) : b == 0 -> truediv a b = Raise ZeroDivisionError.
Proof.
  intros H. unfold truediv. apply Qeq_bool_iff in H. rewrite H. reflexivity.
Qed.

(** With non-zero scales the loop appends one pair per point, in order. *)
Lemma convert_loop_ok (trend : list complex) (xmin x_scale ymid y_scale : Q)
    (yspan : Q) (xspan : Z) (acc : list (Z * Q)) :
  ~ x_scale == 0 -> ~ y_scale == 0 ->
  convert_loop trend xmin x_scale ymid y_scale yspan xspan acc
  = Ok (acc ++ map (fun p =>
                      ((1 + round (inject_Z xspan
                                   * ((real p - xmin) / x_scale)))%Z,
                       yspan * ((ymid - imag p) / y_scale)))
                   trend).
Proof.
  intros Hx Hy. revert acc.
  induction trend as [| p trend IH]; intros acc; simpl.
  - rewrite app_nil_r. reflexivity.
  - rewrite (truediv_ok _ Hx), (truediv_ok _ Hy). cbn [bind].
    rewrite IH, <- app_assoc. reflexivity.
Qed.

(** With a point to convert, a zero scale raises. *)
Lemma convert_loop_scales (p : complex) (trend : list complex)
    (xmin x_scale ymid y_scale : Q) (yspan : Q) (xspan : Z)
    (acc out : list (Z * Q)) :
  convert_loop (p :: trend) xmin x_scale ymid y_scale yspan xspan acc = Ok out ->
  ~ x_scale == 0 /\ ~ y_scale == 0.
Proof.
  simpl. intros H. split; intros Z0.
  - rewrite (truediv_zero _ Z0) in H. discriminate.
  - rewrite (truediv_zero _ Z0) in H.
    destruct (truediv (real p - xmin) x_scale); discriminate.
Qed.

Lemma day_offset_mono (xspan : Z) (x1 x2 xmin x_scale : Q) :
  0 < x_scale -> (0 <= xspan)%Z -> x1 <= x2 ->
  (round (inject_Z xspan * ((x1 - xmin) / x_scale))
   <= round (inject_Z xspan * ((x2 - xmin) / x_scale)))%Z.
Proof.
  intros Hs Hn Hx. apply round_mono.
  assert (Hi : 0 <= inject_Z xspan).
  { change 0 with (inject_Z 0). rewrite <- Zle_Qle. exact Hn. }
  rewrite !(Qmult_comm (inject_Z xspan)).
  apply Qmult_le_compat_r; [| exact Hi].
  unfold Qdiv. apply Qmult_le_compat_r.
  - lra.
  - apply Qlt_le_weak, Qinv_lt_0_compat, Hs.
Qed.

(** ** The store *)

Lemma update_app (h : Store.t) (l x : list Path.t) (t : Store.t) :
  Store.update (List.length h) l (h ++ x :: t) = h ++ l :: t.
Proof. induction h as [| y h IH]; simpl; [| rewrite IH]; reflexivity. Qed.

Lemma nth_app_new (h ext : Store.t) (k : nat) :
  nth (List.length h + k) (h ++ ext) [] = nth k ext [].
Proof. rewrite app_nth2_plus. reflexivity. Qed.

Lemma bind_lift {A B : Type} (r : result A) (k : A -> Store.M B) (h : Store.t) :
  Store.bind (Store.lift r) k h
  = match r with
    | Ok a => k a h
    | Raise e => (Raise e, h)
    end.
Proof. destruct r; reflexivity. Qed.

Section StoreFacts.
Context {G : Path.Geometry}.

(** Lines 108-116 on the store: the caller's objects stay as they are,
    and the two references returned hold the two lists of
    [split_single_segment_lines]. *)
Lemma split_single_segment_lines_st_spec (paths : Store.ref) (h : Store.t) :
  (paths < List.length h)%nat ->
  exists ext r1 r2,
    split_single_segment_lines_st paths h = (Ok (r1, r2), h ++ ext)
    /\ (r2 < List.length (h ++ ext))%nat
    /\ nth r1 (h ++ ext) []
       = fst (split_single_segment_lines (nth paths h []))
    /\ nth r2 (h ++ ext) []
       = snd (split_single_segment_lines (nth paths h [])).
Proof.
  intros Hp.
  unfold split_single_segment_lines_st, split_single_segment_lines.
  unfold Store.bind, Store.get, Store.alloc, Store.sort, Store.ret.
  set (A := filter is_single (nth paths h [])).
  rewrite <- !app_assoc. cbn [app].
  rewrite !length_app. cbn [List.length].
  replace (List.length h + 1)%nat with (S (List.length h)) by lia.
  rewrite nth_middle.
  destruct (5 <? List.length A)%nat; cbv beta.
  - rewrite nth_middle, update_app, nth_middle.
    rewrite <- !app_assoc. cbn [app]. rewrite nth_middle.
    set (B := sort_by_key Path.length A).
    exists [B; []; firstn (List.length B - 5) B; firstn 5 B].
    eexists. eexists. split; [reflexivity |].
    rewrite !length_app. cbn [List.length fst snd].
    split; [lia |]. split.
    + replace (List.length h + 3)%nat
        with (List.length (h ++ [B; []; firstn (List.length B - 5) B]))
        by (rewrite length_app; reflexivity).
      change (h ++ [B; []; firstn (List.length B - 5) B; firstn 5 B])
        with (h ++ [B; []; firstn (List.length B - 5) B] ++ [firstn 5 B]).
      rewrite app_assoc, nth_middle. reflexivity.
    + replace (List.length h + 2)%nat
        with (List.length (h ++ [B; []]))
        by (rewrite length_app; reflexivity).
      change (h ++ [B; []; firstn (List.length B - 5) B; firstn 5 B])
        with (h ++ [B; []] ++ [firstn (List.length B - 5) B; firstn 5 B]).
      rewrite app_assoc, nth_middle. reflexivity.
  - exists [A; []]. eexists. eexists. split; [reflexivity |].
    rewrite !length_app. cbn [List.length fst snd].
    split; [lia |]. split.
    + rewrite nth_middle. reflexivity.
    + replace (S (List.length h)) with (List.length (h ++ [A]))
        by (rewrite length_app; simpl; lia).
      change (h ++ [A; []]) with (h ++ [A] ++ [[]]).
      rewrite app_assoc, nth_middle. reflexivity.
Qed.
End StoreFacts.

(** ** Doubles *)

Lemma double_sub_self (s : bool) (m : positive) (e : Z) :
  Double.sub (S754_finite s m e) (S754_finite s m e) = S754_zero false.
Proof.
  unfold Double.sub, SFsub. rewrite Z.min_id.
  unfold shl_align. rewrite !Z.sub_diag. reflexivity.
Qed.

Lemma double_div_self (s : bool) (m : positive) (e : Z) :
  Double.div (S754_finite s m e) (S754_finite s m e) = Double.one.
Proof.
  unfold Double.div, SFdiv, SFdiv_core_binary.
  replace (Z.sub (Z.add (Zdigits2 (Zpos m)) e) (Z.add (Zdigits2 (Zpos m)) e))
    with 0%Z by lia.
  rewrite Z.sub_diag.
  change (Z.min (fexp 53 1024 0) 0) with (-53)%Z.
  change (Z.sub 0 (-53)) with 53%Z. cbv iota.
  rewrite Z.shiftl_mul_pow2 by lia.
  assert (E : Z.div_eucl (Zpos m * 2 ^ 53) (Zpos m) = ((2 ^ 53)%Z, 0%Z)).
  { pose proof (Z.div_mul (2 ^ 53) (Zpos m) ltac:(lia)) as Hq.
    pose proof (Z.mod_mul (2 ^ 53) (Zpos m) ltac:(lia)) as Hr.
    unfold Z.div, Z.modulo in Hq, Hr. rewrite (Z.mul_comm (Zpos m)).
    destruct (Z.div_eucl (2 ^ 53 * Zpos m) (Zpos m)) as [q r].
    rewrite Hq, Hr. reflexivity. }
  rewrite E.
  assert (N : new_location (Zpos m) 0 = loc_Exact).
  { unfold new_location. destruct (Z.even (Zpos m)); reflexivity. }
  rewrite N. destruct s; reflexivity.
Qed.

Lemma digits2_pos_lower (m : positive) :
  (2 ^ (Zpos (digits2_pos m) - 1) <= Zpos m)%Z.
Proof.
  induction m as [m IH | m IH |]; cbn [digits2_pos].
  - replace (Zpos (Pos.succ (digits2_pos m)) - 1)%Z
      with (Z.succ (Zpos (digits2_pos m) - 1)) by lia.
    rewrite Z.pow_succ_r by lia. lia.
  - replace (Zpos (Pos.succ (digits2_pos m)) - 1)%Z
      with (Z.succ (Zpos (digits2_pos m) - 1)) by lia.
    rewrite Z.pow_succ_r by lia. lia.
  - reflexivity.
Qed.

Lemma digits2_pos_bound (m : positive) :
  (Zpos m < 2 ^ 53)%Z -> (Zpos (digits2_pos m) <= 53)%Z.
Proof.
  intros H. destruct (Z_le_gt_dec (Zpos (digits2_pos m)) 53) as [L | G];
    [exact L |].
  pose proof (digits2_pos_lower m) as Lo.
  assert (P : (2 ^ 53 <= 2 ^ (Zpos (digits2_pos m) - 1))%Z)
    by (apply Z.pow_le_mono_r; lia).
  lia.
Qed.

Lemma digits2_pos_iter (m d : positive) :
  digits2_pos (Pos.iter xO m d) = (digits2_pos m + d)%positive.
Proof.
  induction d as [| d IH] using Pos.peano_ind.
  - cbn. lia.
  - rewrite Pos.iter_succ. cbn [digits2_pos]. rewrite IH. lia.
Qed.

Lemma Zpos_iter (m d : positive) :
  Zpos (Pos.iter xO m d) = (Zpos m * 2 ^ Zpos d)%Z.
Proof.
  induction d as [| d IH] using Pos.peano_ind.
  - cbn. lia.
  - rewrite Pos.iter_succ, Pos2Z.inj_xO, IH, Pos2Z.inj_succ.
    rewrite Z.pow_succ_r by lia. lia.
Qed.

(** A number that is already a double is not rounded. *)
Lemma binary_round_aux_bounded (s : bool) (m : positive) (e : Z) :
  bounded 53 1024 m e = true ->
  binary_round_aux 53 1024 s (Zpos m) e loc_Exact = S754_finite s m e.
Proof.
  unfold bounded, canonical_mantissa. intros H.
  apply andb_true_iff in H. destruct H as [C B]. apply Z.eqb_eq in C.
  unfold binary_round_aux, shr_fexp. cbn [Zdigits2 shr_record_of_loc].
  rewrite C, Z.sub_diag. cbn [shr shr_m loc_of_shr_record round_nearest_even].
  cbn [Zdigits2 shr_record_of_loc].
  rewrite C, Z.sub_diag. cbn [shr shr_m]. rewrite B. reflexivity.
Qed.

Lemma shr_52 (m : positive) :
  iter_pos shr_1 52
    {| shr_m := Zpos (4503599627370496 * m); shr_r := false; shr_s := false |}
  = {| shr_m := Zpos m; shr_r := false; shr_s := false |}.
Proof. reflexivity. Qed.

(** Multiplying a double by 1.0 gives the double. *)
Lemma double_mul_one (s : bool) (m : positive) (e : Z) :
  bounded 53 1024 m e = true ->
  Double.mul (S754_finite s m e) Double.one = S754_finite s m e.
Proof.
  intros H. pose proof H as H0.
  unfold bounded, canonical_mantissa in H0.
  apply andb_true_iff in H0. destruct H0 as [C B]. apply Z.eqb_eq in C.
  unfold Double.mul, Double.one, SFmul.
  rewrite Pos.mul_comm, xorb_false_r.
  unfold binary_round_aux at 1. unfold shr_fexp at 1.
  assert (D : Zdigits2 (Zpos (4503599627370496 * m))
              = (Zpos (digits2_pos m) + 52)%Z).
  { cbn. lia. }
  rewrite D.
  replace (Zpos (digits2_pos m) + 52 + (e + -52))%Z
    with (Zpos (digits2_pos m) + e)%Z by lia.
  rewrite C.
  replace (e - (e + -52))%Z with 52%Z by lia.
  cbn [shr_record_of_loc shr]. rewrite shr_52.
  cbn [shr_m loc_of_shr_record round_nearest_even].
  replace (e + -52 + 52)%Z with e by lia.
  unfold shr_fexp. cbn [Zdigits2 shr_record_of_loc].
  rewrite C, Z.sub_diag. cbn [shr shr_m]. rewrite B. reflexivity.
Qed.

Lemma binary_round_small (s : bool) (m : positive) :
  (Zpos m < 2 ^ 53)%Z ->
  exists mz ez,
    binary_round 53 1024 s m 0 = S754_finite s mz ez
    /\ bounded 53 1024 mz ez = true
    /\ Double.to_Q s mz ez == inject_Z (if s then Zneg m else Zpos m).
Proof.
  intros H. pose proof (@digits2_pos_bound m H) as D.
  unfold binary_round.
  assert (F : fexp 53 1024 (Zpos (digits2_pos m) + 0)
              = (Zpos (digits2_pos m) - 53)%Z).
  { unfold fexp, emin. lia. }
  rewrite F. unfold shl_align.
  destruct (Zpos (digits2_pos m) - 53 - 0)%Z as [| d | d] eqn:E; [| lia |].
  - assert (B : bounded 53 1024 m 0 = true).
    { unfold bounded, canonical_mantissa. rewrite F.
      apply andb_true_iff. split; [apply Z.eqb_eq; lia | reflexivity]. }
    exists m, 0%Z. split; [apply binary_round_aux_bounded, B |].
    split; [exact B |]. destruct s; reflexivity.
  - assert (Ez : (Zpos (digits2_pos m) - 53 = Zneg d)%Z) by lia.
    rewrite Ez.
    assert (B : bounded 53 1024 (Pos.iter xO m d) (Zneg d) = true).
    { unfold bounded, canonical_mantissa, fexp, emin.
      rewrite digits2_pos_iter.
      apply andb_true_iff. split; [apply Z.eqb_eq | apply Z.leb_le]; lia. }
    exists (Pos.iter xO m d), (Zneg d).
    split; [apply binary_round_aux_bounded, B |]. split; [exact B |].
    unfold Double.to_Q, Qeq. cbn [Qnum Qden inject_Z].
    rewrite Pos2Z.inj_pow. pose proof (Zpos_iter m d) as V.
    destruct s.
    + change (Zneg (Pos.iter xO m d)) with (- Zpos (Pos.iter xO m d))%Z.
      rewrite V. change (Zneg m) with (- Zpos m)%Z. lia.
    + rewrite V. lia.
Qed.

(** An integer below 2^53 in magnitude converts to a double that holds
    it exactly. *)
Lemma of_int_exact (z : Z) :
  (Z.abs z < 2 ^ 53)%Z ->
  exists fx,
    Double.of_int z = Ok fx
    /\ Double.mul fx Double.one = fx
    /\ Double.round fx = Ok z.
Proof.
  intros Hz. destruct z as [| m | m].
  - exists (S754_zero false). repeat split.
  - destruct (@binary_round_small false m) as (mz & ez & E & B & V); [lia |].
    exists (S754_finite false mz ez).
    unfold Double.of_int, Double.of_Z. cbn [binary_normalize]. rewrite E.
    split; [reflexivity |]. split; [apply double_mul_one, B |].
    cbn [Double.round]. rewrite (@round_comp _ _ V), round_inject_Z.
    reflexivity.
  - destruct (@binary_round_small true m) as (mz & ez & E & B & V); [lia |].
    exists (S754_finite true mz ez).
    unfold Double.of_int, Double.of_Z. cbn [binary_normalize]. rewrite E.
    split; [reflexivity |]. split; [apply double_mul_one, B |].
    cbn [Double.round]. rewrite (@round_comp _ _ V), round_inject_Z.
    reflexivity.
Qed.

Lemma of_int_cases (z : Z) (fx : Double.t) :
  Double.of_int z = Ok fx ->
  (exists s, fx = S754_zero s) \/ (exists s m e, fx = S754_finite s m e).
Proof.
  unfold Double.of_int. destruct (Double.of_Z z) as [s | s | | s m e];
    intros [= <-]; eauto.
Qed.

(** Doubles that are [==] are the same double, or are the two zeros. *)
Lemma double_eqb_cases (x y : Double.t) :
  Double.eqb x y = true ->
  x = y \/ exists s s', x = S754_zero s /\ y = S754_zero s'.
Proof.
  unfold Double.eqb, SFeqb. intros H.
  destruct x as [s | s | | s m e]; destruct y as [s' | s' | | s' m' e'];
    cbn [SFcompare] in H;
    try discriminate H;
    try (destruct s; discriminate H);
    try (destruct s'; discriminate H).
  - right. eauto.
  - left. destruct s, s'; try discriminate H; reflexivity.
  - left.
    assert (E : s = s' /\ e = e' /\ m = m').
    { destruct s, s'; try discriminate H;
        destruct (Z.compare_spec e e') as [He | He | He];
        try discriminate H;
        (split; [reflexivity |]; split; [exact He |]);
        rewrite Pos.compare_cont_spec in H; cbn [Pos.switch_Eq] in H;
        destruct (Pos.compare_spec m m') as [Hm | Hm | Hm];
        try discriminate H; exact Hm. }
    destruct E as (-> & -> & ->). reflexivity.
Qed.

(** At [x == xmin] the rounded product is 0. *)
Lemma round_at_xmin (x xmin x_scale fx : Double.t) (z r : Z) :
  Double.eqb x xmin = true ->
  Double.of_int z = Ok fx ->
  Double.is_zero x_scale = false ->
  Double.round (Double.mul fx (Double.div (Double.sub x xmin) x_scale))
  = Ok r ->
  r = 0%Z.
Proof.
  intros Hx Hfx Hs Hr.
  assert (S : Double.sub x xmin = S754_nan
              \/ exists s, Double.sub x xmin = S754_zero s).
  { destruct (double_eqb_cases _ _ Hx) as [<- | (s & s' & -> & ->)].
    - destruct x as [[|] | [|] | | s m e]; try (left; reflexivity);
        try (right; eexists; reflexivity).
      right. exists false. apply double_sub_self.
    - right. destruct s, s'; eexists; reflexivity. }
  destruct (of_int_cases _ Hfx) as [[s ->] | (s & m & e & ->)];
    destruct S as [S | [s0 S]]; rewrite S in Hr;
    destruct x_scale as [sx | sx | | sx mx ex];
    cbn in Hs, Hr; congruence.
Qed.

(** Doubles that are [==] have the same non-zero difference to a third. *)
Lemma double_sub_eqb (x x' y : Double.t) :
  Double.eqb x x' = true ->
  Double.is_zero (Double.sub x' y) = false ->
  Double.sub x y = Double.sub x' y.
Proof.
  intros Hx Hz.
  destruct (double_eqb_cases _ _ Hx) as [<- | (s & s' & -> & ->)];
    [reflexivity |].
  destruct y as [sy | sy | | sy my ey]; try reflexivity.
  destruct s, s', sy; discriminate Hz.
Qed.

(** At [x == xmax] the rounded product is [xspan]. *)
Lemma round_at_xmax (x xmin xmax fx : Double.t) (z r : Z) :
  Double.eqb x xmax = true ->
  (Z.abs z < 2 ^ 53)%Z ->
  Double.of_int z = Ok fx ->
  Double.is_zero (Double.sub xmax xmin) = false ->
  Double.round
    (Double.mul fx (Double.div (Double.sub x xmin) (Double.sub xmax xmin)))
  = Ok r ->
  r = z.
Proof.
  intros Hx Hz Hfx Hs Hr.
  rewrite (double_sub_eqb _ _ _ Hx Hs) in Hr.
  destruct (of_int_exact z Hz) as (fx' & E & M & R).
  rewrite Hfx in E. injection E as <-.
  destruct (Double.sub xmax xmin) as [sx | sx | | sx mx ex].
  - discriminate Hs.
  - destruct (of_int_cases _ Hfx) as [[s ->] | (s & m & e & ->)];
      cbn in Hr; discriminate Hr.
  - destruct (of_int_cases _ Hfx) as [[s ->] | (s & m & e & ->)];
      cbn in Hr; discriminate Hr.
  - rewrite double_div_self, M, R in Hr. congruence.
Qed.

Section OnDoublesFacts.
Variables xmin x_scale ymid y_scale yspan : Double.t.
Variable xspan : Z.

(** The loop returns exactly when every sample has its pair, and then it
    has appended the pairs, in the order of the samples. *)
Lemma convert_loop_pairs (trend : list dcomplex)
    (acc out : list (Z * Double.t)) :
  OnDoubles.convert_loop trend xmin x_scale ymid y_scale yspan xspan acc
  = Ok out
  <-> exists o,
      out = acc ++ o
      /\ Forall2 (OnDoubles.pair_of xmin x_scale ymid y_scale yspan xspan)
                 trend o.
Proof.
  revert acc out. induction trend as [| p trend IH]; intros acc out.
  - cbn [OnDoubles.convert_loop]. split.
    + intros [= <-]. exists []. rewrite app_nil_r. split; constructor.
    + intros (o & -> & F). inversion F. rewrite app_nil_r. reflexivity.
  - cbn [OnDoubles.convert_loop]. unfold Double.truediv. split.
    + destruct (Double.is_zero x_scale) eqn:Zx; cbn [bind]; [discriminate |].
      destruct (Double.of_int xspan) as [fx |] eqn:Fx; cbn [bind];
        [| discriminate].
      destruct (Double.round _) as [r |] eqn:R; cbn [bind]; [| discriminate].
      destruct (Double.is_zero y_scale) eqn:Zy; cbn [bind]; [discriminate |].
      intros H. apply IH in H. destruct H as (o & -> & F).
      eexists (_ :: o). rewrite <- app_assoc. split; [reflexivity |].
      constructor; [| exact F].
      split; [exact Zx |]. split; [exact Zy |].
      exists fx, r. split; [exact Fx |]. split; [exact R | reflexivity].
    + intros (o & -> & F).
      inversion F as [| ? o1 ? o' P F']; subst.
      destruct P as (Zx & Zy & fx & r & Fx & R & ->).
      rewrite Zx, Fx. cbn [bind]. rewrite R. cbn [bind]. rewrite Zy.
      cbn [bind]. apply IH. exists o'. rewrite <- app_assoc.
      split; [reflexivity | exact F'].
Qed.

(** The loop raises nothing but the errors of the division, of the
    conversion of [xspan] and of [round]. *)
Lemma convert_loop_raises_on_doubles (trend : list dcomplex)
    (acc : list (Z * Double.t)) (e : exn) :
  OnDoubles.convert_loop trend xmin x_scale ymid y_scale yspan xspan acc
  = Raise e ->
  e = ZeroDivisionError \/ e = OverflowError
  \/ e = ValueError "cannot convert float NaN to integer".
Proof.
  revert acc. induction trend as [| p trend IH]; intros acc;
    cbn [OnDoubles.convert_loop]; [discriminate |].
  unfold Double.truediv.
  destruct (Double.is_zero x_scale); cbn [bind]; [intros [= <-]; auto |].
  unfold Double.of_int.
  destruct (Double.of_Z xspan) as [s | s | | s m e0]; cbn [bind];
    try (intros [= <-]; auto).
  - destruct (Double.mul _ _) as [s' | s' | | s' m' e'];
      cbn [Double.round bind]; try (intros [= <-]; auto);
      (destruct (Double.is_zero y_scale); cbn [bind];
       [intros [= <-]; auto | apply IH]).
  - destruct (Double.mul _ _) as [s' | s' | | s' m' e'];
      cbn [Double.round bind]; try (intros [= <-]; auto);
      (destruct (Double.is_zero y_scale); cbn [bind];
       [intros [= <-]; auto | apply IH]).
Qed.
End OnDoublesFacts.

(** ** Theorems on convert_units *)


(** C7 as stated fails on the doubles the code computes on.  For the
    sample (255, 40), limits (0, 420), triple [[80; 50; 20]], yspan 80 and
    xspan 42 the code returns day 26: the quotient 255 / 420 is rounded
    before the product, which is 25.499999999999996.  The claim's
    [1 + round(xspan * (x - xmin) / (xmax - xmin))] is 27, in exact
    arithmetic and on doubles, and its value
    [yspan * (baseline - y) / y_scale] is the next double after the one
    the code returns. *)
Lemma formula_day_differs :
  OnDoubles.convert_units
    [DComplex (Double.of_Z 255) (Double.of_Z 40)]
    [Double.of_Z 80; Double.of_Z 50; Double.of_Z 20]
    (Double.of_Z 0, Double.of_Z 420) (Double.of_Z 80) 42
  = Ok [(26%Z, S754_finite false 7505999378950826 (-48))]
  /\ (1 + round (inject_Z 42 * (255 - 0) / (420 - 0)))%Z = 27%Z
  /\ Double.round
       (Double.div
          (Double.mul (Double.of_Z 42)
                      (Double.sub (Double.of_Z 255) (Double.of_Z 0)))
          (Double.sub (Double.of_Z 420) (Double.of_Z 0)))
     = Ok 26%Z
  /\ Double.div
       (Double.mul (Double.of_Z 80)
                   (Double.sub (Double.of_Z 50) (Double.of_Z 40)))
       (Double.div
          (Double.add
             (Double.abs (Double.sub (Double.of_Z 80) (Double.of_Z 50)))
             (Double.abs (Double.sub (Double.of_Z 50) (Double.of_Z 20))))
          Double.two)
     = S754_finite false 7505999378950827 (-48).
Proof. repeat split; vm_compute; reflexivity. Qed.

(** C7, as the code has it, on doubles.  For a reference triple
    [[upper; baseline; lower]] and x-limits [(xmin, xmax)],
    [convert_units] returns exactly when every sample has its pair: no
    scale is zero and the product to round is finite.  It then returns one
    pair per sample, in the order of the samples, the pair of [(x, y)]
    being [(1 + round (xspan * ((x - xmin) / (xmax - xmin))),
    yspan * ((baseline - y) / y_scale))] with
    [y_scale = (|upper - baseline| + |baseline - lower|) / 2], every
    operation rounded to a double, in this order.  An empty trend gives an
    empty result; a sample with [x == xmin] gets day 1, and a sample with
    [x == xmax] gets day [1 + xspan] (for [|xspan| < 2^53]). *)
Theorem convert_units_on_doubles (trend : list dcomplex)
    (upper baseline lower xmin xmax yspan : Double.t) (xspan : Z) :
  let x_scale := Double.sub xmax xmin in
  let y_scale :=
    Double.div (Double.add (Double.abs (Double.sub upper baseline))
                           (Double.abs (Double.sub baseline lower)))
               Double.two in
  OnDoubles.convert_units [] [upper; baseline; lower] (xmin, xmax) yspan xspan
  = Ok []
  /\ (forall out,
         OnDoubles.convert_units trend [upper; baseline; lower] (xmin, xmax)
                                 yspan xspan = Ok out
         <-> Forall2 (OnDoubles.pair_of xmin x_scale baseline y_scale
                                        yspan xspan)
                     trend out)
  /\ (forall out,
         OnDoubles.convert_units trend [upper; baseline; lower] (xmin, xmax)
                                 yspan xspan = Ok out ->
         Forall2 (fun p o =>
                    (Double.eqb (dreal p) xmin = true -> fst o = 1%Z)
                    /\ (Double.eqb (dreal p) xmax = true ->
                        (Z.abs xspan < 2 ^ 53)%Z ->
                        fst o = (1 + xspan)%Z))
                 trend out).
Proof.
  intros x_scale y_scale.
  assert (I : forall out,
             OnDoubles.convert_units trend [upper; baseline; lower]
                                     (xmin, xmax) yspan xspan = Ok out
             <-> Forall2 (OnDoubles.pair_of xmin x_scale baseline y_scale
                                            yspan xspan)
                         trend out).
  { intros out. unfold OnDoubles.convert_units. fold x_scale y_scale.
    rewrite convert_loop_pairs. split.
    - intros (o & -> & F). exact F.
    - intros F. exists out. split; [reflexivity | exact F]. }
  split; [reflexivity |]. split; [exact I |].
  intros out H. apply I in H.
  eapply Forall2_impl; [| exact H].
  intros p o (Zx & _ & fx & r & Fx & R & ->). cbn [fst]. split.
  - intros E.
    rewrite (@round_at_xmin (dreal p) xmin x_scale fx xspan r E Fx Zx R).
    reflexivity.
  - intros E Hz.
    rewrite (@round_at_xmax (dreal p) xmin xmax fx xspan r E Hz Fx Zx R).
    reflexivity.
Qed.

Lemma convert_units_on_doubles_witness :
  OnDoubles.convert_units
    [DComplex (Double.of_Z 0) (Double.of_Z 40);
     DComplex (Double.of_Z 420) (Double.of_Z 50)]
    [Double.of_Z 80; Double.of_Z 50; Double.of_Z 20]
    (Double.of_Z 0, Double.of_Z 420) (Double.of_Z 80) 42
  = Ok [(1%Z, S754_finite false 7505999378950826 (-48));
        (43%Z, S754_zero false)]
  /\ Forall2 (fun p o =>
                (Double.eqb (dreal p) (Double.of_Z 0) = true -> fst o = 1%Z)
                /\ (Double.eqb (dreal p) (Double.of_Z 420) = true ->
                    (Z.abs 42 < 2 ^ 53)%Z ->
                    fst o = (1 + 42)%Z))
             [DComplex (Double.of_Z 0) (Double.of_Z 40);
              DComplex (Double.of_Z 420) (Double.of_Z 50)]
             [(1%Z, S754_finite false 7505999378950826 (-48));
              (43%Z, S754_zero false)].
Proof.
  split; [vm_compute; reflexivity |].
  apply (proj2 (proj2 (@convert_units_on_doubles
                         [DComplex (Double.of_Z 0) (Double.of_Z 40);
                          DComplex (Double.of_Z 420) (Double.of_Z 50)]
                         (Double.of_Z 80) (Double.of_Z 50) (Double.of_Z 20)
                         (Double.of_Z 0) (Double.of_Z 420) (Double.of_Z 80)
                         42))).
  vm_compute; reflexivity.
Defined.


(** On an empty trend nothing is divided: the result is empty whatever the
    limits are. *)
Lemma convert_units_nil (u b l : Q) (xlim : Q * Q) (yspan : Q) (xspan : Z) :
  convert_units [] [u; b; l] xlim yspan xspan = Ok [].
Proof. destruct xlim. reflexivity. Qed.

(** The shape of a successful conversion: three reference values, and one
    pair per point, computed by lines 178-179. *)
Lemma convert_units_inv (trend : list complex) (line_y : list Q)
    (xmin xmax yspan : Q) (xspan : Z) (out : list (Z * Q)) :
  convert_units trend line_y (xmin, xmax) yspan xspan = Ok out ->
  trend <> [] ->
  exists ymax ymid ymin,
    line_y = [ymax; ymid; ymin]
    /\ ~ xmax - xmin == 0
    /\ out = map (fun p =>
                    ((1 + round (inject_Z xspan
                                 * ((real p - xmin) / (xmax - xmin))))%Z,
                     yspan * ((ymid - imag p)
                              / ((Qabs (ymax - ymid) + Qabs (ymid - ymin)) / 2))))
                 trend.
Proof.
  unfold convert_units. intros H Hne.
  destruct line_y as [| ymax [| ymid [| ymin [| ? ?]]]]; try discriminate.
  exists ymax, ymid, ymin. split; [reflexivity |].
  destruct trend as [| p trend]; [contradiction |].
  destruct (convert_loop_scales _ _ _ _ _ _ _ _ _ H) as [Hx Hy].
  split; [exact Hx |].
  rewrite (convert_loop_ok _ _ _ _ _ _ Hx Hy) in H.
  injection H as <-. reflexivity.
Qed.


(** C9.  With [xmin < xmax] and [xspan >= 0], whenever [convert_units]
    returns, two samples with native [x1 < x2] get days with
    [day1 <= day2]. *)
Theorem day_offset_monotone (trend : list complex) (line_y : list Q)
    (xmin xmax yspan : Q) (xspan : Z) (out : list (Z * Q))
    (i j : nat) (p1 p2 : complex) (o1 o2 : Z * Q) :
  xmin < xmax -> (0 <= xspan)%Z ->
  convert_units trend line_y (xmin, xmax) yspan xspan = Ok out ->
  nth_error trend i = Some p1 -> nth_error trend j = Some p2 ->
  nth_error out i = Some o1 -> nth_error out j = Some o2 ->
  real p1 < real p2 ->
  (fst o1 <= fst o2)%Z.
Proof.
  intros Hlim Hspan Hout Hp1 Hp2 Ho1 Ho2 Hlt.
  destruct (@convert_units_inv trend line_y xmin xmax yspan xspan out Hout) as (ymax & ymid & ymin & _ & _ & ->).
  { intros ->. destruct i; discriminate. }
  rewrite nth_error_map, Hp1 in Ho1. rewrite nth_error_map, Hp2 in Ho2.
  cbn [option_map] in Ho1, Ho2.
  assert (E1 : fst o1 = (1 + round (inject_Z xspan
                                     * ((real p1 - xmin) / (xmax - xmin))))%Z)
    by (destruct o1; cbn [fst]; congruence).
  assert (E2 : fst o2 = (1 + round (inject_Z xspan
                                     * ((real p2 - xmin) / (xmax - xmin))))%Z)
    by (destruct o2; cbn [fst]; congruence).
  rewrite E1, E2.
  apply Zplus_le_compat_l, day_offset_mono.
  - lra.
  - exact Hspan.
  - apply Qlt_le_weak, Hlt.
Qed.

Lemma day_offset_monotone_witness :
  0 < 420 /\ (0 <= 42)%Z
  /\ convert_units [Complex 100 50; Complex 104 30] [90; 50; 10] (0, 420) 80 42
     = Ok [(11%Z, 80 * ((50 - 50) / ((Qabs (90 - 50) + Qabs (50 - 10)) / 2)));
           (11%Z, 80 * ((50 - 30) / ((Qabs (90 - 50) + Qabs (50 - 10)) / 2)))]
  /\ 100 < 104
  /\ (11 <= 11)%Z.
Proof.
  split; [reflexivity |]. split; [discriminate |].
  split; [reflexivity |]. split; [reflexivity |].
  apply (@day_offset_monotone
           [Complex 100 50; Complex 104 30] [90; 50; 10] 0 420 80 42
           [(11%Z, 80 * ((50 - 50) / ((Qabs (90 - 50) + Qabs (50 - 10)) / 2)));
            (11%Z, 80 * ((50 - 30) / ((Qabs (90 - 50) + Qabs (50 - 10)) / 2)))]
           0 1 (Complex 100 50) (Complex 104 30)
           (11%Z, 80 * ((50 - 50) / ((Qabs (90 - 50) + Qabs (50 - 10)) / 2)))
           (11%Z, 80 * ((50 - 30) / ((Qabs (90 - 50) + Qabs (50 - 10)) / 2))));
    try reflexivity.
  discriminate.
Defined.




(** ** Theorems on categorise_paths *)

Lemma ascending_5 (a b c d e : Q) :
  StronglySorted Qle [a; b; c; d; e] -> a <= b /\ b <= c /\ c <= d /\ d <= e.
Proof.
  intros H.
  repeat match goal with
         | H : StronglySorted _ (_ :: _) |- _ => inversion H; clear H; subst
         | H : Forall _ (_ :: _) |- _ => inversion H; clear H; subst
         end.
  repeat split; assumption.
Qed.

(** C1 at a drawing with six single-segment primitives: five grid lines
    of length 420 and one tick of length 5.  The code keeps the five
    shortest as candidates: the tick is both a candidate and a trend
    fragment, the grid line at y = 90 is in neither list, and the triple
    returned is [[95; 50; 10]]. *)
Lemma six_lines_keep_the_shortest :
  split_single_segment_lines (G := axis_geometry) grid5_tick
  = ([hline 0 5 95; hline 0 420 10; hline 0 420 30; hline 0 420 50;
      hline 0 420 70],
     [hline 0 5 95])
  /\ categorise_paths (G := axis_geometry) grid5_tick
     = Ok ((0, 420), [95; 50; 10], [Complex 0 95; Complex 5 95]).
Proof. split; reflexivity. Qed.

(** C3 as stated fails: with exactly five single-segment primitives and no
    other path, no sample is returned, so the points of the lines at
    y = 30 and y = 70 (ranks 1 and 3) are not among the samples. *)
Lemma five_lines_excluded_are_dropped :
  List.length (filter is_single grid5) = 5%nat
  /\ categorise_paths (G := axis_geometry) grid5
     = Ok ((0, 420), [90; 50; 10], []).
Proof. split; reflexivity. Qed.

(** C3, as the code has it.  With exactly five single-segment primitives
    nothing is reclassified: the samples are those of the multi-segment
    primitives, in their order, and no other. *)
Theorem five_lines_samples {G : Path.Geometry} (paths : list Path.t) :
  List.length (filter is_single paths) = 5%nat ->
  split_single_segment_lines paths = (filter is_single paths, [])
  /\ exists xlim y_lines,
      categorise_paths paths
      = Ok (xlim, y_lines, flat_map trend_samples (filter is_multi paths)).
Proof.
  intros H5.
  assert (Sp : split_single_segment_lines paths = (filter is_single paths, []))
    by (apply split_small; lia).
  split; [exact Sp |].
  destruct (categorise_paths_cases paths)
    as (ys & _ & L & _ & [[C _] | [_ (p & s & e & _ & _ & _ & E)]]).
  - exfalso. apply C. rewrite collapse_length, L, H5. reflexivity.
  - rewrite Sp, app_nil_r in E. cbn [snd] in E. eauto.
Qed.

Lemma five_lines_samples_witness :
  List.length
    (filter is_single
       (grid5 ++ [polyline (Complex 0 50) [Complex 10 40; Complex 20 60]]))
  = 5%nat
  /\ split_single_segment_lines (G := axis_geometry)
       (grid5 ++ [polyline (Complex 0 50) [Complex 10 40; Complex 20 60]])
     = (filter is_single
          (grid5 ++ [polyline (Complex 0 50) [Complex 10 40; Complex 20 60]]),
        [])
  /\ exists xlim y_lines,
      categorise_paths (G := axis_geometry)
        (grid5 ++ [polyline (Complex 0 50) [Complex 10 40; Complex 20 60]])
      = Ok (xlim, y_lines,
            flat_map (trend_samples (G := axis_geometry))
              (filter is_multi
                 (grid5
                    ++ [polyline (Complex 0 50)
                                 [Complex 10 40; Complex 20 60]]))).
Proof.
  split; [reflexivity |].
  apply (@five_lines_samples axis_geometry
           (grid5 ++ [polyline (Complex 0 50) [Complex 10 40; Complex 20 60]])).
  reflexivity.
Defined.

(** C4.  When the candidates' start ordinates, sorted, are the five values
    [y0 <= y1 <= y2 <= y3 <= y4], they are collapsed to the minimum [y0],
    the value at index 2 and the maximum [y4], and the call returns the
    triple [[y4; y2; y0]]. *)
Theorem five_values_collapse {G : Path.Geometry} (paths : list Path.t)
    (y0 y1 y2 y3 y4 : Q) :
  sorted_start_imag (fst (split_single_segment_lines paths))
  = Ok [y0; y1; y2; y3; y4] ->
  (y0 <= y1 /\ y1 <= y2 /\ y2 <= y3 /\ y3 <= y4)
  /\ collapse [y0; y1; y2; y3; y4] = [y0; y2; y4]
  /\ exists xlim y_lines points,
      categorise_paths paths = Ok (xlim, y_lines, points)
      /\ Forall2 Qeq y_lines [y4; y2; y0].
Proof.
  intros Hy.
  destruct (categorise_paths_cases paths)
    as (ys & E & _ & S & [[C _] | [_ (p & s & e & _ & _ & _ & R)]]);
    rewrite Hy in E; injection E as <-.
  - exfalso. apply C. reflexivity.
  - destruct (ascending_5 S) as (H01 & H12 & H23 & H34).
    split; [repeat split; assumption |]. split; [reflexivity |].
    eexists. eexists. eexists. split; [exact R |].
    change (collapse [y0; y1; y2; y3; y4]) with [y0; y2; y4].
    apply sorted_reverse_3; lra.
Qed.

Lemma five_values_collapse_witness :
  sorted_start_imag (fst (split_single_segment_lines (G := axis_geometry)
                            [hline 0 420 70; hline 0 420 10; hline 0 420 90;
                             hline 0 420 50; hline 0 420 30]))
  = Ok [10; 30; 50; 70; 90]
  /\ (10 <= 30 /\ 30 <= 50 /\ 50 <= 70 /\ 70 <= 90)
  /\ collapse [10; 30; 50; 70; 90] = [10; 50; 90]
  /\ exists xlim y_lines points,
      categorise_paths (G := axis_geometry)
        [hline 0 420 70; hline 0 420 10; hline 0 420 90;
         hline 0 420 50; hline 0 420 30]
      = Ok (xlim, y_lines, points)
      /\ Forall2 Qeq y_lines [90; 50; 10].
Proof.
  split; [reflexivity |].
  apply (@five_values_collapse axis_geometry
           [hline 0 420 70; hline 0 420 10; hline 0 420 90;
            hline 0 420 50; hline 0 420 30] 10 30 50 70 90).
  reflexivity.
Defined.

(** C5.  Let [n] be the number of reference ordinates left after the
    collapse of lines 120-121.  [categorise_paths] raises a ValueError
    exactly when [n <> 3], its message is
    ["Wrong number of y_lines: "] followed by [n], and with [n = 3] it
    returns.  Four single-segment primitives raise with the count 4;
    three return. *)
Theorem wrong_number_of_y_lines {G : Path.Geometry} (paths : list Path.t) :
  exists ys,
    sorted_start_imag (fst (split_single_segment_lines paths)) = Ok ys
    /\ ((exists e, categorise_paths paths = Raise e)
        <-> List.length (collapse ys) <> 3%nat)
    /\ (List.length (collapse ys) <> 3%nat ->
        categorise_paths paths
        = Raise (ValueError ("Wrong number of y_lines: "
                               ++ str (List.length (collapse ys)))%string))
    /\ (List.length (collapse ys) = 3%nat ->
        exists r, categorise_paths paths = Ok r)
    /\ (List.length (filter is_single paths) = 4%nat ->
        categorise_paths paths
        = Raise (ValueError "Wrong number of y_lines: 4"))
    /\ (List.length (filter is_single paths) = 3%nat ->
        exists r, categorise_paths paths = Ok r).
Proof.
  destruct (categorise_paths_cases paths)
    as (ys & E & L & _ & [[C R] | [C (p & s & e & _ & _ & _ & R)]]);
    exists ys; (split; [exact E |]).
  - split; [split; [intros _; exact C | intros _; eauto] |].
    split; [intros _; exact R |].
    split; [intros C3; contradiction |].
    split.
    + intros H4. rewrite R, collapse_length, L, H4. reflexivity.
    + intros H3. exfalso. apply C. rewrite collapse_length, L, H3. reflexivity.
  - split; [split; [intros [e' He']; congruence | intros NC; contradiction] |].
    split; [intros NC; contradiction |].
    split; [intros _; eauto |].
    split.
    + intros H4. exfalso. rewrite collapse_length, L, H4 in C. discriminate.
    + intros _. eauto.
Qed.

(** C6.  Whenever the call returns, the x-limits are the start abscissa
    and the end abscissa of the second single-segment primitive of the
    caller's list, in the caller's order. *)
Theorem xlim_of_second_single {G : Path.Geometry} (paths : list Path.t)
    (xlim : Q * Q) (y_lines : list Q) (points : list complex) :
  categorise_paths paths = Ok (xlim, y_lines, points) ->
  exists p s e,
    nth_error (filter is_single paths) 1 = Some p
    /\ Path.start p = Ok s /\ Path.end_ p = Ok e
    /\ xlim = (real s, real e).
Proof.
  intros H.
  destruct (categorise_paths_cases paths)
    as (ys & _ & _ & _ & [[_ R] | [_ (p & s & e & N & Ps & Pe & R)]]);
    rewrite R in H; [discriminate |].
  injection H as <- _ _. exists p, s, e. auto.
Qed.

Lemma xlim_of_second_single_witness :
  categorise_paths (G := axis_geometry) tick_second
  = Ok ((2, 7), [95; 50; 10], [Complex 2 95; Complex 7 95])
  /\ exists p s e,
      nth_error (filter is_single tick_second) 1 = Some p
      /\ Path.start p = Ok s /\ Path.end_ p = Ok e
      /\ (2, 7) = (real s, real e).
Proof.
  split; [reflexivity |].
  apply (@xlim_of_second_single axis_geometry tick_second (2, 7)
           [95; 50; 10] [Complex 2 95; Complex 7 95]).
  reflexivity.
Defined.

(** C8.  Whenever the call returns, the samples are those of the trends,
    trend after trend: the multi-segment primitives, then the reclassified
    ones.  A trend whose first segment is a cubic curve gives one sample,
    the centre of its bounding box; any other trend gives, for each of its
    continuous sub-paths in order, the start of every segment and then the
    end of the sub-path.  The sub-paths are the trend cut at its breaks:
    end to end they are the trend, each is continuous, and none joins the
    next. *)
Theorem samples_of_trends {G : Path.Geometry} (paths : list Path.t)
    (xlim : Q * Q) (y_lines : list Q) (points : list complex) :
  categorise_paths paths = Ok (xlim, y_lines, points) ->
  points = flat_map trend_samples
             (filter is_multi paths ++ snd (split_single_segment_lines paths))
  /\ forall trend,
      In trend (filter is_multi paths
                  ++ snd (split_single_segment_lines paths)) ->
      (forall a b c d rest,
          trend = Segment.CubicBezier a b c d :: rest ->
          exists x0 x1 y0 y1,
            Path.bbox trend = (x0, x1, y0, y1)
            /\ trend_samples trend
               = [Complex ((x0 + x1) / 2) ((y0 + y1) / 2)])
      /\ (forall s, hd_error trend = Some s ->
                    Segment.is_CubicBezier s = false ->
                    trend_samples trend
                    = flat_map (fun sub =>
                                  map Segment.start sub
                                    ++ match rev sub with
                                       | s :: _ => [Segment.end_ s]
                                       | [] => []
                                       end)
                               (Path.continuous_subpaths trend))
      /\ List.concat (Path.continuous_subpaths trend) = trend
      /\ Forall continuous (Path.continuous_subpaths trend)
      /\ broken (Path.continuous_subpaths trend).
Proof.
  intros H. split.
  - destruct (categorise_paths_cases paths)
      as (ys & _ & _ & _ & [[_ R] | [_ (p & s & e & _ & _ & _ & R)]]);
      rewrite R in H; [discriminate |].
    injection H as _ _ <-. reflexivity.
  - intros trend _. split; [| split; [| split; [| split]]].
    + intros a b c d rest ->. unfold trend_samples.
      destruct (Path.bbox _) as [[[x0 x1] y0] y1].
      exists x0, x1, y0, y1. split; reflexivity.
    + intros s Hs Hc. destruct trend as [| s0 rest]; [discriminate |].
      injection Hs as ->. destruct s; try discriminate; reflexivity.
    + apply continuous_subpaths_concat.
    + apply continuous_subpaths_continuous.
    + apply continuous_subpaths_broken.
Qed.

Lemma samples_of_trends_witness :
  categorise_paths (G := axis_geometry) two_trends
  = Ok ((0, 420), [90; 50; 10],
        [Complex 0 50; Complex 10 40; Complex 20 60; Complex 30 20;
         Complex 40 30; Complex (6 # 2) (80 # 2)])
  /\ [Complex 0 50; Complex 10 40; Complex 20 60; Complex 30 20;
      Complex 40 30; Complex (6 # 2) (80 # 2)]
     = flat_map (trend_samples (G := axis_geometry))
         (filter is_multi two_trends
            ++ snd (split_single_segment_lines (G := axis_geometry)
                      two_trends)).
Proof.
  split; [reflexivity |].
  refine (proj1 (@samples_of_trends axis_geometry two_trends (0, 420)
                   [90; 50; 10]
                   [Complex 0 50; Complex 10 40; Complex 20 60; Complex 30 20;
                    Complex 40 30; Complex (6 # 2) (80 # 2)] _)).
  reflexivity.
Defined.

(** ** Theorem on the caller's list *)

(** C10.  [categorise_paths] only reads the caller's list.  Run on a store
    in which [paths] is an object, it returns or raises as the function on
    the contents of [paths] does, and in the store it leaves every object
    that existed before the call as it was, the list [paths] among them:
    the same paths in the same order.  The in-place sort of line 113 works
    on an object made by the call. *)
Theorem categorise_paths_reads_only {G : Path.Geometry}
    (paths : Store.ref) (h : Store.t) :
  (paths < List.length h)%nat ->
  fst (categorise_paths_st paths h) = categorise_paths (nth paths h [])
  /\ firstn (List.length h) (snd (categorise_paths_st paths h)) = h
  /\ nth paths (snd (categorise_paths_st paths h)) [] = nth paths h [].
Proof.
  intros Hp.
  assert (K : exists ext,
             categorise_paths_st paths h
             = (categorise_paths (nth paths h []), h ++ ext)).
  { destruct (split_single_segment_lines_st_spec h Hp)
      as (ext & r1 & r2 & E & Hr2 & E1 & E2).
    unfold categorise_paths_st, categorise_paths.
    unfold Store.bind at 1. rewrite E.
    destruct (split_single_segment_lines (nth paths h [])) as [ssl st].
    cbn [fst snd] in E1, E2.
    unfold Store.bind at 1. unfold Store.get at 1. rewrite E1.
    rewrite bind_lift.
    destruct (sorted_start_imag ssl) as [ys | e]; cbn [bind];
      [| exists ext; reflexivity].
    destruct (List.length (collapse ys) =? 3)%nat;
      [| exists ext; reflexivity].
    unfold Store.bind at 1. unfold Store.get at 1.
    rewrite (app_nth1 h ext [] Hp).
    rewrite bind_lift.
    destruct (traverse _ (filter is_single (nth paths h []))) as [xlims | e];
      cbn [bind]; [| exists ext; reflexivity].
    rewrite bind_lift.
    destruct (nth_error xlims 1) as [xlim |]; cbn [bind];
      [| exists ext; reflexivity].
    unfold Store.bind at 1. unfold Store.get at 1.
    rewrite (app_nth1 h ext [] Hp).
    unfold Store.bind at 1. unfold Store.alloc at 1.
    unfold Store.bind at 1. unfold Store.get at 1.
    rewrite nth_middle.
    unfold Store.bind at 1. unfold Store.get at 1.
    rewrite (app_nth1 (h ++ ext) [filter is_multi (nth paths h [])] [] Hr2), E2.
    unfold Store.bind at 1. unfold Store.alloc at 1.
    unfold Store.bind at 1. unfold Store.get at 1.
    rewrite nth_middle.
    rewrite bind_lift.
    exists (ext ++ [filter is_multi (nth paths h [])]
                ++ [filter is_multi (nth paths h []) ++ st]).
    rewrite !app_assoc.
    destruct (trend_loop _ []); reflexivity. }
  destruct K as [ext ->]. cbn [fst snd].
  split; [reflexivity |]. split.
  - rewrite firstn_app, Nat.sub_diag, firstn_all. cbn [firstn].
    apply app_nil_r.
  - apply app_nth1. exact Hp.
Qed.

Lemma categorise_paths_reads_only_witness :
  (0 < List.length [grid5_tick])%nat
  /\ fst (categorise_paths_st (G := axis_geometry) 0%nat [grid5_tick])
     = categorise_paths (G := axis_geometry) grid5_tick
  /\ firstn 1 (snd (categorise_paths_st (G := axis_geometry) 0%nat [grid5_tick]))
     = [grid5_tick]
  /\ nth 0 (snd (categorise_paths_st (G := axis_geometry) 0%nat [grid5_tick])) []
     = grid5_tick.
Proof.
  split; [repeat constructor |].
  apply (@categorise_paths_reads_only axis_geometry 0%nat [grid5_tick]).
  repeat constructor.
Defined.

(** * Further properties *)

(** ** convert_units *)

(** X1.  The exceptions of [convert_units], on doubles.  It raises the
    unpacking error exactly when [line_y] does not have three elements.
    Whatever else it raises is [ZeroDivisionError], [OverflowError] (from
    [round] of an infinite product, or from an [xspan] beyond the doubles)
    or the ValueError of [round] on a NaN.  With three elements and no
    point to convert it returns the empty list, whatever the limits; with
    a point to convert, a zero x-extent raises [ZeroDivisionError] and a
    zero y-scale makes the call raise. *)
Theorem convert_units_exceptions (trend : list dcomplex)
    (line_y : list Double.t) (xmin xmax yspan : Double.t) (xspan : Z) :
  (OnDoubles.convert_units trend line_y (xmin, xmax) yspan xspan
   = Raise UnpackError
   <-> List.length line_y <> 3%nat)
  /\ (forall e,
         OnDoubles.convert_units trend line_y (xmin, xmax) yspan xspan
         = Raise e ->
         e = UnpackError \/ e = ZeroDivisionError \/ e = OverflowError
         \/ e = ValueError "cannot convert float NaN to integer")
  /\ (forall ymax ymid ymin,
         line_y = [ymax; ymid; ymin] ->
         (trend = [] ->
          OnDoubles.convert_units trend line_y (xmin, xmax) yspan xspan
          = Ok [])
         /\ (trend <> [] ->
             Double.is_zero (Double.sub xmax xmin) = true ->
             OnDoubles.convert_units trend line_y (xmin, xmax) yspan xspan
             = Raise ZeroDivisionError)
         /\ (trend <> [] ->
             Double.is_zero
               (Double.div
                  (Double.add (Double.abs (Double.sub ymax ymid))
                              (Double.abs (Double.sub ymid ymin)))
                  Double.two) = true ->
             exists e,
               OnDoubles.convert_units trend line_y (xmin, xmax) yspan xspan
               = Raise e)).
Proof.
  assert (R : forall e,
             OnDoubles.convert_units trend line_y (xmin, xmax) yspan xspan
             = Raise e ->
             (e = UnpackError /\ List.length line_y <> 3%nat)
             \/ (List.length line_y = 3%nat
                 /\ (e = ZeroDivisionError \/ e = OverflowError
                     \/ e = ValueError "cannot convert float NaN to integer"))).
  { intros e. unfold OnDoubles.convert_units.
    destruct line_y as [| ymax [| ymid [| ymin [| y4 rest]]]];
      try (intros [= <-]; left; split; [reflexivity | simpl; lia]).
    intros H. right. split; [reflexivity |].
    apply (convert_loop_raises_on_doubles _ _ _ _ _ _ _ _ H). }
  split; [| split].
  - split.
    + intros H. destruct (R _ H) as [[_ L] | [_ [E | [E | E]]]];
        [exact L | discriminate E ..].
    + unfold OnDoubles.convert_units.
      destruct line_y as [| ymax [| ymid [| ymin [| y4 rest]]]];
        try reflexivity.
      intros H. contradiction H. reflexivity.
  - intros e H. destruct (R _ H) as [[-> _] | [_ E]]; tauto.
  - intros ymax ymid ymin ->. unfold OnDoubles.convert_units.
    split; [intros ->; reflexivity |]. split.
    + intros Hne Zx. destruct trend as [| p trend]; [contradiction |].
      cbn [OnDoubles.convert_loop]. unfold Double.truediv.
      rewrite Zx. reflexivity.
    + intros Hne Zy. destruct trend as [| p trend]; [contradiction |].
      cbn [OnDoubles.convert_loop]. unfold Double.truediv.
      rewrite Zy.
      destruct (Double.is_zero (Double.sub xmax xmin)); cbn [bind]; eauto.
      destruct (Double.of_int xspan); cbn [bind]; eauto.
      destruct (Double.round _); cbn [bind]; eauto.
Qed.

(** An infinite product reaches [round]: [OverflowError]. *)
Lemma convert_units_overflow :
  OnDoubles.convert_units
    [DComplex (S754_finite false 4503599627370496 971) (Double.of_Z 40)]
    [Double.of_Z 80; Double.of_Z 50; Double.of_Z 20]
    (Double.of_Z 0, S754_finite false 4503599627370496 (-53))
    (Double.of_Z 80) 42
  = Raise OverflowError.
Proof. vm_compute. reflexivity. Qed.



(** The accumulator of the loop is a prefix of its result. *)
Lemma convert_loop_acc (trend : list complex) (xmin x_scale ymid y_scale : Q)
    (yspan : Q) (xspan : Z) (acc : list (Z * Q)) :
  convert_loop trend xmin x_scale ymid y_scale yspan xspan acc
  = bind (convert_loop trend xmin x_scale ymid y_scale yspan xspan [])
         (fun o => Ok (acc ++ o)).
Proof.
  revert acc. induction trend as [| p trend IH]; intros acc; simpl.
  - rewrite app_nil_r. reflexivity.
  - destruct (truediv (real p - xmin) x_scale) as [qx |]; [| reflexivity].
    destruct (truediv (ymid - imag p) y_scale) as [qy |]; [| reflexivity].
    cbn [bind]. rewrite (IH (acc ++ _)), (IH [_]).
    destruct (convert_loop trend xmin x_scale ymid y_scale yspan xspan []);
      [| reflexivity].
    cbn [bind]. rewrite <- app_assoc. reflexivity.
Qed.

Lemma convert_loop_app (t1 t2 : list complex) (xmin x_scale ymid y_scale : Q)
    (yspan : Q) (xspan : Z) (acc : list (Z * Q)) :
  convert_loop (t1 ++ t2) xmin x_scale ymid y_scale yspan xspan acc
  = bind (convert_loop t1 xmin x_scale ymid y_scale yspan xspan acc)
         (fun o => convert_loop t2 xmin x_scale ymid y_scale yspan xspan o).
Proof.
  revert acc. induction t1 as [| p t1 IH]; intros acc; simpl.
  - reflexivity.
  - destruct (truediv (real p - xmin) x_scale) as [qx |]; [| reflexivity].
    destruct (truediv (ymid - imag p) y_scale) as [qy |]; [| reflexivity].
    cbn [bind]. apply IH.
Qed.

(** One returned pair, as lines 178-179 compute it. *)
Lemma convert_units_nth (trend : list complex) (line_y : list Q)
    (xmin xmax yspan : Q) (xspan : Z) (out : list (Z * Q))
    (i : nat) (p : complex) :
  convert_units trend line_y (xmin, xmax) yspan xspan = Ok out ->
  nth_error trend i = Some p ->
  exists ymax ymid ymin,
    line_y = [ymax; ymid; ymin]
    /\ ~ xmax - xmin == 0
    /\ ~ (Qabs (ymax - ymid) + Qabs (ymid - ymin)) / 2 == 0
    /\ nth_error out i
       = Some ((1 + round (inject_Z xspan
                           * ((real p - xmin) / (xmax - xmin))))%Z,
               yspan * ((ymid - imag p)
                        / ((Qabs (ymax - ymid) + Qabs (ymid - ymin)) / 2))).
Proof.
  intros H Hp.
  assert (Hne : trend <> []) by (intros ->; destruct i; discriminate).
  destruct (@convert_units_inv trend line_y xmin xmax yspan xspan out H Hne)
    as (ymax & ymid & ymin & -> & Hx & ->).
  exists ymax, ymid, ymin. split; [reflexivity |]. split; [exact Hx |]. split.
  - destruct trend as [| p0 trend]; [contradiction |].
    unfold convert_units in H.
    apply (convert_loop_scales _ _ _ _ _ _ _ _ _ H).
  - rewrite nth_error_map, Hp. reflexivity.
Qed.

(** X2.  Conversion goes point by point: converting two trends put end
    to end returns exactly when converting each returns, and the result is
    the two results put end to end. *)
Theorem convert_units_app (t1 t2 : list complex) (line_y : list Q)
    (xlim : Q * Q) (yspan : Q) (xspan : Z) (out : list (Z * Q)) :
  convert_units (t1 ++ t2) line_y xlim yspan xspan = Ok out
  <-> exists o1 o2,
      convert_units t1 line_y xlim yspan xspan = Ok o1
      /\ convert_units t2 line_y xlim yspan xspan = Ok o2
      /\ out = o1 ++ o2.
Proof.
  destruct xlim as [xmin xmax]. unfold convert_units.
  destruct line_y as [| ymax [| ymid [| ymin [| y4 rest]]]];
    try (split; [discriminate | intros (o1 & o2 & E & _); discriminate E]).
  rewrite convert_loop_app.
  set (y_scale := (Qabs (ymax - ymid) + Qabs (ymid - ymin)) / 2).
  destruct (convert_loop t1 xmin (xmax - xmin) ymid y_scale yspan xspan [])
    as [o1 |]; cbn [bind].
  - rewrite convert_loop_acc.
    destruct (convert_loop t2 xmin (xmax - xmin) ymid y_scale yspan xspan [])
      as [o2 |]; cbn [bind].
    + split.
      * intros [= <-]. exists o1, o2. auto.
      * intros (o1' & o2' & [= <-] & [= <-] & ->). reflexivity.
    + split; [discriminate | intros (o1' & o2' & _ & E & _); discriminate E].
  - split; [discriminate | intros (o1' & o2' & E & _); discriminate E].
Qed.



(** X5.  The value falls as the native y grows: with [yspan >= 0], of two
    samples the one with the larger native y (lower in the drawing) never
    gets the larger value. *)
Theorem value_antitone (trend : list complex) (line_y : list Q)
    (xlim : Q * Q) (yspan : Q) (xspan : Z) (out : list (Z * Q))
    (i j : nat) (p1 p2 : complex) (o1 o2 : Z * Q) :
  0 <= yspan ->
  convert_units trend line_y xlim yspan xspan = Ok out ->
  nth_error trend i = Some p1 -> nth_error trend j = Some p2 ->
  nth_error out i = Some o1 -> nth_error out j = Some o2 ->
  imag p1 <= imag p2 ->
  snd o2 <= snd o1.
Proof.
  intros Hspan Hout Hp1 Hp2 Ho1 Ho2 Hle. destruct xlim as [xmin xmax].
  destruct (@convert_units_nth trend line_y xmin xmax yspan xspan out i p1
              Hout Hp1) as (ymax & ymid & ymin & E & _ & Hy & E1).
  destruct (@convert_units_nth trend line_y xmin xmax yspan xspan out j p2
              Hout Hp2) as (ymax' & ymid' & ymin' & E' & _ & _ & E2).
  rewrite E in E'. injection E' as <- <- <-.
  rewrite E1 in Ho1. rewrite E2 in Ho2.
  assert (Eo1 : snd o1 = yspan * ((ymid - imag p1)
                 / ((Qabs (ymax - ymid) + Qabs (ymid - ymin)) / 2)))
    by (injection Ho1 as <-; reflexivity).
  assert (Eo2 : snd o2 = yspan * ((ymid - imag p2)
                 / ((Qabs (ymax - ymid) + Qabs (ymid - ymin)) / 2)))
    by (injection Ho2 as <-; reflexivity).
  rewrite Eo1, Eo2. clear Eo1 Eo2 Ho1 Ho2 E1 E2 Hout.
  assert (Hpos : 0 < (Qabs (ymax - ymid) + Qabs (ymid - ymin)) / 2).
  { pose proof (Qabs_nonneg (ymax - ymid)).
    pose proof (Qabs_nonneg (ymid - ymin)).
    destruct (Qlt_le_dec 0 ((Qabs (ymax - ymid) + Qabs (ymid - ymin)) / 2))
      as [Hlt | Hge]; [exact Hlt |].
    exfalso. apply Hy. unfold Qdiv in *. change (/ 2) with (1 # 2) in *.
    lra. }
  clear Hy. revert Hpos.
  generalize ((Qabs (ymax - ymid) + Qabs (ymid - ymin)) / 2).
  intros y_scale Hpos.
  rewrite !(Qmult_comm yspan).
  apply Qmult_le_compat_r; [| exact Hspan].
  unfold Qdiv. apply Qmult_le_compat_r.
  - lra.
  - apply Qlt_le_weak, Qinv_lt_0_compat, Hpos.
Qed.

Lemma value_antitone_witness :
  0 <= 80
  /\ convert_units [Complex 100 50; Complex 104 30] [90; 50; 10] (0, 420) 80 42
     = Ok [(11%Z, 80 * ((50 - 50) / ((Qabs (90 - 50) + Qabs (50 - 10)) / 2)));
           (11%Z, 80 * ((50 - 30) / ((Qabs (90 - 50) + Qabs (50 - 10)) / 2)))]
  /\ 30 <= 50
  /\ 80 * ((50 - 50) / ((Qabs (90 - 50) + Qabs (50 - 10)) / 2))
     <= 80 * ((50 - 30) / ((Qabs (90 - 50) + Qabs (50 - 10)) / 2)).
Proof.
  split; [discriminate |]. split; [reflexivity |]. split; [discriminate |].
  apply (@value_antitone
           [Complex 100 50; Complex 104 30] [90; 50; 10] (0, 420) 80 42
           [(11%Z, 80 * ((50 - 50) / ((Qabs (90 - 50) + Qabs (50 - 10)) / 2)));
            (11%Z, 80 * ((50 - 30) / ((Qabs (90 - 50) + Qabs (50 - 10)) / 2)))]
           1 0 (Complex 104 30) (Complex 100 50)
           (11%Z, 80 * ((50 - 30) / ((Qabs (90 - 50) + Qabs (50 - 10)) / 2)))
           (11%Z, 80 * ((50 - 50) / ((Qabs (90 - 50) + Qabs (50 - 10)) / 2))));
    try reflexivity; discriminate.
Defined.

(** X6.  With the reference lines at the same distance [d > 0] on both
    sides of the baseline and [yspan >= 0], a sample between the outer
    lines gets a value between [- yspan] and [yspan]. *)
Theorem value_range (trend : list complex)
    (first second third d : Q) (xlim : Q * Q) (yspan : Q) (xspan : Z)
    (out : list (Z * Q)) (i : nat) (p : complex) (o : Z * Q) :
  0 < d -> first - second == d -> second - third == d -> 0 <= yspan ->
  convert_units trend [first; second; third] xlim yspan xspan = Ok out ->
  nth_error trend i = Some p -> nth_error out i = Some o ->
  third <= imag p -> imag p <= first ->
  - yspan <= snd o /\ snd o <= yspan.
Proof.
  intros Hd H1 H2 Hspan Hout Hp Ho Hlo Hhi. destruct xlim as [xmin xmax].
  destruct (@convert_units_nth trend [first; second; third] xmin xmax yspan
              xspan out i p Hout Hp)
    as (ymax & ymid & ymin & E & _ & _ & Eo).
  injection E as <- <- <-. rewrite Eo in Ho.
  assert (Es : snd o = yspan * ((second - imag p)
                 / ((Qabs (first - second) + Qabs (second - third)) / 2)))
    by (injection Ho as <-; reflexivity).
  rewrite Es. clear Es Ho Eo Hout.
  assert (Hs : (Qabs (first - second) + Qabs (second - third)) / 2 == d).
  { rewrite (Qabs_pos (first - second)) by lra.
    rewrite (Qabs_pos (second - third)) by lra.
    rewrite H1, H2. field. }
  rewrite Hs.
  assert (L : - (1) <= (second - imag p) / d).
  { apply Qle_shift_div_l; [exact Hd | lra]. }
  assert (U : (second - imag p) / d <= 1).
  { apply Qle_shift_div_r; [exact Hd | lra]. }
  revert L U. generalize ((second - imag p) / d). intros t L U.
  pose proof (Qmult_le_compat_r _ _ yspan L Hspan).
  pose proof (Qmult_le_compat_r _ _ yspan U Hspan).
  split; lra.
Qed.

Lemma value_range_witness :
  0 < 40 /\ 90 - 50 == 40 /\ 50 - 10 == 40 /\ 0 <= 80
  /\ 10 <= 30 /\ 30 <= 90
  /\ - (80) <= 80 * ((50 - 30) / ((Qabs (90 - 50) + Qabs (50 - 10)) / 2))
  /\ 80 * ((50 - 30) / ((Qabs (90 - 50) + Qabs (50 - 10)) / 2)) <= 80.
Proof.
  split; [reflexivity |]. split; [reflexivity |]. split; [reflexivity |].
  split; [discriminate |]. split; [discriminate |]. split; [discriminate |].
  apply (@value_range
           [Complex 104 30] 90 50 10 40 (0, 420) 80 42
           [(11%Z, 80 * ((50 - 30) / ((Qabs (90 - 50) + Qabs (50 - 10)) / 2)))]
           0 (Complex 104 30)
           (11%Z, 80 * ((50 - 30) / ((Qabs (90 - 50) + Qabs (50 - 10)) / 2))));
    try reflexivity; discriminate.
Defined.

(** ** categorise_paths *)

(** [sorted(l, reverse=True)] returns a descending list. *)
Lemma sorted_reverse_descending (l : list Q) :
  Sorted (fun a b => b <= a) (sorted_reverse l).
Proof.
  assert (H : Sorted (fun a b => Qle_bool b a = true) (sorted_reverse l)).
  { apply sort_with_sorted. intros a b.
    destruct (Qlt_le_dec a b) as [L | L].
    - right. apply Qle_bool_iff, Qlt_le_weak, L.
    - left. apply Qle_bool_iff, L. }
  induction H as [| y l' Hs IH Hy]; constructor.
  - exact IH.
  - destruct Hy; constructor. apply Qle_bool_iff. assumption.
Qed.

Lemma polyline_length (a : complex) (l : list complex) :
  List.length (polyline a l) = List.length l.
Proof.
  revert a. induction l as [| b l IH]; intros a; simpl; [| rewrite IH];
    reflexivity.
Qed.

Lemma complex_eqb_refl (a : complex) : complex_eqb a a = true.
Proof. unfold complex_eqb. rewrite !Qeq_bool_refl. reflexivity. Qed.

(** A polyline has no break: it is its only sub-path. *)
Lemma polyline_subpaths (a b : complex) (l : list complex) :
  Path.continuous_subpaths (polyline a (b :: l)) = [polyline a (b :: l)].
Proof.
  simpl. revert a b. induction l as [| c l IH]; intros a b; simpl.
  - reflexivity.
  - rewrite complex_eqb_refl. specialize (IH b c). simpl in IH.
    rewrite IH. reflexivity.
Qed.

Lemma polyline_points (a b : complex) (l : list complex) :
  map Segment.start (polyline a (b :: l))
    ++ match rev (polyline a (b :: l)) with
       | s :: _ => [Segment.end_ s]
       | [] => []
       end
  = a :: b :: l.
Proof.
  revert a b. induction l as [| c l IH]; intros a b.
  - reflexivity.
  - specialize (IH b c).
    change (polyline a (b :: c :: l))
      with (Segment.Line a b :: polyline b (c :: l)).
    cbn [map rev Segment.start].
    destruct (rev (polyline b (c :: l))) as [| s r] eqn:R.
    + apply (f_equal (@rev _)) in R. rewrite rev_involutive in R.
      discriminate R.
    + cbn [app] in IH |- *. rewrite IH. reflexivity.
Qed.

Section FurtherClassifierFacts.
Context {G : Path.Geometry}.

(** X8.  With exactly three single-segment primitives the call returns,
    and the triple is their start ordinates in descending order: the
    ascending list of line 118, reversed. *)
Theorem three_lines_triple (paths : list Path.t) :
  List.length (filter is_single paths) = 3%nat ->
  exists ys xlim y_lines points,
    sorted_start_imag (filter is_single paths) = Ok ys
    /\ StronglySorted Qle ys
    /\ categorise_paths paths = Ok (xlim, y_lines, points)
    /\ Forall2 Qeq y_lines (rev ys).
Proof.
  intros H3.
  assert (Sp : split_single_segment_lines paths = (filter is_single paths, []))
    by (apply split_small; lia).
  destruct (categorise_paths_cases paths)
    as (ys & E & L & S & [[C _] | [C (p & s & e & _ & _ & _ & R)]]).
  - exfalso. apply C. rewrite collapse_length, L, H3. reflexivity.
  - rewrite Sp in E. cbn [fst] in E. rewrite H3 in L. cbn [Nat.min] in L.
    exists ys. eexists. eexists. eexists.
    split; [exact E |]. split; [exact S |]. split; [exact R |].
    unfold collapse. rewrite L. cbn [Nat.eqb].
    destruct ys as [| a [| b [| c [| ? ?]]]]; try discriminate L.
    inversion S as [| ? ? S1 F1]; subst.
    inversion S1 as [| ? ? S2 F2]; subst.
    inversion F1 as [| ? ? Hab F1']; subst.
    inversion F2 as [| ? ? Hbc _]; subst.
    apply sorted_reverse_3; assumption.
Qed.

(** X9.  Whatever the drawing, a returned triple has three elements in
    descending order. *)
Theorem triple_descending (paths : list Path.t)
    (xlim : Q * Q) (y_lines : list Q) (points : list complex) :
  categorise_paths paths = Ok (xlim, y_lines, points) ->
  exists a b c, y_lines = [a; b; c] /\ c <= b /\ b <= a.
Proof.
  intros H.
  destruct (categorise_paths_cases paths)
    as (ys & _ & _ & _ & [[_ R] | [C (p & s & e & _ & _ & _ & R)]]);
    rewrite R in H; [discriminate |].
  injection H as _ <- _.
  pose proof (sorted_reverse_descending (collapse ys)) as D.
  pose proof (sorted_reverse_length (collapse ys)) as L. rewrite C in L.
  destruct (sorted_reverse (collapse ys)) as [| a [| b [| c [| ? ?]]]];
    try discriminate L.
  exists a, b, c. split; [reflexivity |].
  inversion D as [| ? ? D1 Ha]; subst.
  inversion D1 as [| ? ? _ Hb]; subst.
  inversion Ha; subst. inversion Hb; subst. split; assumption.
Qed.

(** X10.  The call is decided by the number [n] of single-segment
    primitives alone: it returns for [n = 3] and for every [n >= 5], and
    raises the ValueError with the count [n] for [n] in 0, 1, 2, 4. *)
Theorem accepted_counts (paths : list Path.t) :
  let n := List.length (filter is_single paths) in
  (n = 3%nat \/ (5 <= n)%nat -> exists r, categorise_paths paths = Ok r)
  /\ ((n < 3)%nat \/ n = 4%nat ->
      categorise_paths paths
      = Raise (ValueError ("Wrong number of y_lines: " ++ str n)%string)).
Proof.
  intros n.
  destruct (categorise_paths_cases paths)
    as (ys & _ & L & _ & [[C R] | [C (p & s & e & _ & _ & _ & R)]]);
    rewrite collapse_length in C; fold n in L; rewrite R.
  - split.
    + intros Hn. exfalso. apply C.
      destruct (List.length ys =? 5)%nat eqn:E5; [reflexivity |].
      apply Nat.eqb_neq in E5. lia.
    + intros Hn. rewrite collapse_length.
      destruct (List.length ys =? 5)%nat eqn:E5.
      * apply Nat.eqb_eq in E5. lia.
      * replace (List.length ys) with n by lia. reflexivity.
  - split; [intros _; eauto |].
    intros Hn. exfalso.
    destruct (List.length ys =? 5)%nat eqn:E5.
    + apply Nat.eqb_eq in E5. lia.
    + lia.
Qed.

(** X11.  With more than five single-segment primitives the two lists of
    lines 115-116 overlap: a shortest single-segment primitive is both a
    reference candidate and a trend fragment. *)
Theorem shortest_is_kept_twice (paths : list Path.t) :
  (5 < List.length (filter is_single paths))%nat ->
  exists p,
    In p (fst (split_single_segment_lines paths))
    /\ In p (snd (split_single_segment_lines paths))
    /\ forall q, In q (filter is_single paths) ->
                 Path.length p <= Path.length q.
Proof.
  intros Hn. unfold split_single_segment_lines.
  destruct (5 <? List.length (filter is_single paths))%nat eqn:E;
    [| apply Nat.ltb_ge in E; lia].
  cbn [fst snd].
  pose proof (sort_by_key_ascending Path.length (filter is_single paths)) as Hs.
  pose proof (sort_with_perm
                (fun a b => Qle_bool (Path.length a) (Path.length b))
                (filter is_single paths)) as P.
  pose proof (sort_with_length
                (fun a b => Qle_bool (Path.length a) (Path.length b))
                (filter is_single paths)) as L.
  fold (sort_by_key Path.length (filter is_single paths)) in P, L.
  destruct (sort_by_key Path.length (filter is_single paths)) as [| p B].
  - simpl in L. lia.
  - exists p. split; [left; reflexivity |]. split.
    + cbn [List.length] in *.
      destruct (S (List.length B) - 5)%nat eqn:D; [lia |].
      left. reflexivity.
    + intros q Hq.
      apply (Permutation_in _ (Permutation_sym P)) in Hq.
      inversion Hs as [| ? ? _ F]; subst.
      destruct Hq as [<- | Hq]; [apply Qle_refl |].
      rewrite Forall_forall in F. apply F, Hq.
Qed.

(** X12.  With at most five single-segment primitives and a polyline as
    the only multi-segment primitive, the samples are the vertices of the
    polyline, in order. *)
Theorem polyline_vertices (paths : list Path.t) (a : complex)
    (l : list complex) (xlim : Q * Q) (y_lines : list Q)
    (points : list complex) :
  categorise_paths paths = Ok (xlim, y_lines, points) ->
  (List.length (filter is_single paths) <= 5)%nat ->
  filter is_multi paths = [polyline a l] ->
  points = a :: l.
Proof.
  intros H Hn Hm.
  destruct (categorise_paths_cases paths)
    as (ys & _ & _ & _ & [[_ R] | [_ (p & s & e & _ & _ & _ & R)]]);
    rewrite R in H; [discriminate |].
  injection H as _ _ <-.
  rewrite (split_small paths Hn), Hm. cbn [snd app flat_map].
  rewrite app_nil_r.
  assert (M : is_multi (polyline a l) = true).
  { apply (proj2 (proj1 (filter_In is_multi (polyline a l) paths)
                    ltac:(rewrite Hm; left; reflexivity))). }
  unfold is_multi, Path.len in M. rewrite polyline_length in M.
  apply Nat.ltb_lt in M.
  destruct l as [| b l]; [simpl in M; lia |].
  unfold trend_samples.
  change (polyline a (b :: l)) with (Segment.Line a b :: polyline b l) at 1.
  cbv iota. rewrite polyline_subpaths. cbn [flat_map].
  rewrite app_nil_r. apply polyline_points.
Qed.
End FurtherClassifierFacts.

Lemma three_lines_triple_witness :
  List.length (filter is_single grid3_polyline) = 3%nat
  /\ exists ys xlim y_lines points,
      sorted_start_imag (filter is_single grid3_polyline) = Ok ys
      /\ StronglySorted Qle ys
      /\ categorise_paths (G := axis_geometry) grid3_polyline
         = Ok (xlim, y_lines, points)
      /\ Forall2 Qeq y_lines (rev ys).
Proof.
  split; [reflexivity |].
  apply (@three_lines_triple axis_geometry grid3_polyline). reflexivity.
Defined.

Lemma triple_descending_witness :
  categorise_paths (G := axis_geometry) grid5_tick
  = Ok ((0, 420), [95; 50; 10], [Complex 0 95; Complex 5 95])
  /\ exists a b c, [95; 50; 10] = [a; b; c] /\ c <= b /\ b <= a.
Proof.
  split; [reflexivity |].
  apply (@triple_descending axis_geometry grid5_tick (0, 420) [95; 50; 10]
           [Complex 0 95; Complex 5 95]).
  reflexivity.
Defined.

Lemma shortest_is_kept_twice_witness :
  (5 < List.length (filter is_single grid5_tick))%nat
  /\ exists p,
      In p (fst (split_single_segment_lines (G := axis_geometry) grid5_tick))
      /\ In p (snd (split_single_segment_lines (G := axis_geometry)
                      grid5_tick))
      /\ forall q, In q (filter is_single grid5_tick) ->
                   axis_length p <= axis_length q.
Proof.
  split; [repeat constructor |].
  apply (@shortest_is_kept_twice axis_geometry grid5_tick).
  repeat constructor.
Defined.

Lemma polyline_vertices_witness :
  categorise_paths (G := axis_geometry) grid3_polyline
  = Ok ((0, 420), [90; 50; 10],
        [Complex 0 50; Complex 10 40; Complex 20 60; Complex 30 20])
  /\ (List.length (filter is_single grid3_polyline) <= 5)%nat
  /\ [Complex 0 50; Complex 10 40; Complex 20 60; Complex 30 20]
     = Complex 0 50 :: [Complex 10 40; Complex 20 60; Complex 30 20].
Proof.
  split; [reflexivity |]. split; [repeat constructor |].
  apply (@polyline_vertices axis_geometry grid3_polyline (Complex 0 50)
           [Complex 10 40; Complex 20 60; Complex 30 20]
           (0, 420) [90; 50; 10]);
    try reflexivity.
  repeat constructor.
Defined.

(** ** main: the conversion of one drawing *)

Section PipelineFacts.
Context {G : Path.Geometry}.


(** X14.  A drawing with three or five single-segment primitives and no
    multi-segment primitive converts to the empty list, also when its
    reference lines coincide or its x-extent is zero. *)
Theorem trend_converted_no_trend (paths : list Path.t) :
  List.length (filter is_single paths) = 3%nat
  \/ List.length (filter is_single paths) = 5%nat ->
  filter is_multi paths = [] ->
  trend_converted paths = Ok [].
Proof.
  intros Hn Hm. unfold trend_converted.
  destruct (categorise_paths_cases paths)
    as (ys & _ & L & _ & [[C R] | [C (p & s & e' & _ & _ & _ & R)]]);
    rewrite R; cbn [bind].
  - exfalso. apply C. rewrite collapse_length, L.
    destruct Hn as [-> | ->]; reflexivity.
  - rewrite (split_small paths) by lia. rewrite Hm. cbn [snd app flat_map].
    pose proof (sorted_reverse_length (collapse ys)) as L3. rewrite C in L3.
    destruct (sorted_reverse (collapse ys)) as [| a [| b [| c [| ? ?]]]];
      try discriminate L3.
    apply convert_units_nil.
Qed.
End PipelineFacts.


Lemma trend_converted_no_trend_witness :
  (List.length (filter is_single grid5) = 3%nat
   \/ List.length (filter is_single grid5) = 5%nat)
  /\ filter is_multi grid5 = []
  /\ trend_converted (G := axis_geometry) grid5 = Ok [].
Proof.
  split; [right; reflexivity |]. split; [reflexivity |].
  apply (@trend_converted_no_trend axis_geometry grid5);
    [right; reflexivity | reflexivity].
Defined.


(** ** main: file names *)

Lemma str_app_assoc (a b c : string) :
  ((a ++ b) ++ c = a ++ (b ++ c))%string.
Proof. induction a as [| x a IH]; simpl; [| rewrite IH]; reflexivity. Qed.

Lemma contains_app (c : ascii) (a b : string) :
  contains c (a ++ b) = contains c a || contains c b.
Proof.
  induction a as [| x a IH]; simpl; [reflexivity |].
  rewrite IH, orb_assoc. reflexivity.
Qed.

Lemma str_split_nonempty (sep : ascii) (s : string) : str_split sep s <> [].
Proof.
  destruct s as [| c s]; simpl; [discriminate |].
  destruct (Ascii.eqb c sep); [discriminate |].
  destruct (str_split sep s); discriminate.
Qed.

(** A string without the separator is its only piece. *)
Lemma str_split_none (sep : ascii) (s : string) :
  contains sep s = false -> str_split sep s = [s].
Proof.
  induction s as [| c s IH]; simpl; [reflexivity |].
  intros H. apply orb_false_iff in H. destruct H as [Hc Hs].
  rewrite Hc, (IH Hs). reflexivity.
Qed.

(** The first piece ends at the first separator. *)
Lemma str_split_app (sep : ascii) (a b : string) :
  contains sep a = false ->
  str_split sep (a ++ String sep b) = a :: str_split sep b.
Proof.
  induction a as [| c a IH]; simpl.
  - intros _. rewrite Ascii.eqb_refl. reflexivity.
  - intros H. apply orb_false_iff in H. destruct H as [Hc Ha].
    rewrite Hc, (IH Ha). reflexivity.
Qed.

(** No piece holds the separator. *)
Lemma str_split_pieces (sep : ascii) (s : string) :
  Forall (fun w => contains sep w = false) (str_split sep s).
Proof.
  induction s as [| c s IH]; simpl.
  - repeat constructor.
  - destruct (Ascii.eqb c sep) eqn:E.
    + constructor; [reflexivity | exact IH].
    + destruct (str_split sep s) as [| w ws]; [repeat constructor; simpl |].
      * rewrite E. reflexivity.
      * inversion IH; subst. constructor; [| assumption].
        simpl. rewrite E. assumption.
Qed.

(** [sep.join(s.split(sep)) == s] *)
Lemma str_join_split (sep : ascii) (s : string) :
  str_join sep (str_split sep s) = s.
Proof.
  induction s as [| c s IH]; simpl; [reflexivity |].
  destruct (Ascii.eqb_spec c sep) as [-> | N].
  - destruct (str_split sep s) as [| w ws] eqn:E.
    + destruct (str_split_nonempty _ _ E).
    + change (str_join sep (EmptyString :: w :: ws))
        with (String sep (str_join sep (w :: ws))).
      rewrite IH. reflexivity.
  - destruct (str_split sep s) as [| w ws] eqn:E.
    + destruct (str_split_nonempty _ _ E).
    + destruct ws as [| w' ws]; simpl in IH |- *; rewrite <- IH; reflexivity.
Qed.

Lemma contains_split (sep : ascii) (s : string) :
  contains sep s = true ->
  exists a b, s = (a ++ String sep b)%string /\ contains sep a = false.
Proof.
  induction s as [| c s IH]; simpl; [discriminate |].
  destruct (Ascii.eqb_spec c sep) as [-> | N]; simpl.
  - intros _. exists EmptyString, s. split; reflexivity.
  - intros H. destruct (IH H) as (a & b & -> & Ha).
    exists (String c a), b. split; [reflexivity |].
    simpl. rewrite Ha. apply Ascii.eqb_neq in N. rewrite N. reflexivity.
Qed.

(** The text after the last separator. *)
Lemma last_str_split (sep : ascii) (s : string) :
  contains sep (last (str_split sep s) EmptyString) = false
  /\ (s = last (str_split sep s) EmptyString
      \/ exists pre,
          s = (pre ++ String sep (last (str_split sep s) EmptyString))%string).
Proof.
  induction s as [| c s IH].
  - simpl. split; [reflexivity | left; reflexivity].
  - cbn [str_split].
    destruct (str_split sep s) as [| w ws] eqn:E;
      [destruct (str_split_nonempty _ _ E) |].
    destruct IH as [Hl Hs].
    destruct (Ascii.eqb_spec c sep) as [-> | N].
    + change (last (EmptyString :: w :: ws) EmptyString)
        with (last (w :: ws) EmptyString).
      split; [exact Hl |]. right.
      destruct Hs as [Hs | [pre Hs]].
      * exists EmptyString. rewrite <- Hs. reflexivity.
      * exists (String sep pre). cbn [append]. rewrite <- Hs. reflexivity.
    + destruct ws as [| w' ws].
      * cbn [last] in *.
        assert (Es : s = w).
        { rewrite <- (str_join_split sep s), E. reflexivity. }
        subst w. split.
        -- simpl. rewrite Hl. apply Ascii.eqb_neq in N. rewrite N. reflexivity.
        -- left. reflexivity.
      * change (last (String c w :: w' :: ws) EmptyString)
          with (last (w :: w' :: ws) EmptyString).
        split; [exact Hl |].
        destruct Hs as [Hs | [pre Hs]].
        -- exfalso. rewrite <- Hs in Hl.
           rewrite (str_split_none _ _ Hl) in E. discriminate E.
        -- right. exists (String c pre). cbn [append]. rewrite <- Hs. reflexivity.
Qed.

Lemma hd_str_split_app (sep : ascii) (a b : string) :
  hd EmptyString (str_split sep (a ++ String sep b))
  = hd EmptyString (str_split sep a).
Proof.
  induction a as [| c a IH]; simpl.
  - rewrite Ascii.eqb_refl. reflexivity.
  - destruct (Ascii.eqb c sep); [reflexivity |].
    destruct (str_split sep (a ++ String sep b)) as [| w ws] eqn:E;
      [destruct (str_split_nonempty _ _ E) |].
    destruct (str_split sep a) as [| w' ws'] eqn:E';
      [destruct (str_split_nonempty _ _ E') |].
    simpl in IH |- *. rewrite IH. reflexivity.
Qed.

(** Splitting at a separator splits both sides. *)
Lemma str_split_at (sep : ascii) (a b : string) :
  str_split sep (a ++ String sep b) = str_split sep a ++ str_split sep b.
Proof.
  induction a as [| c a IH]; cbn [append str_split].
  - rewrite Ascii.eqb_refl. reflexivity.
  - rewrite IH. destruct (Ascii.eqb c sep); [reflexivity |].
    destruct (str_split sep a) as [| w ws] eqn:E;
      [destruct (str_split_nonempty _ _ E) |].
    reflexivity.
Qed.

Lemma last_app_nonempty {A : Type} (l1 l2 : list A) (d : A) :
  l2 <> [] -> last (l1 ++ l2) d = last l2 d.
Proof.
  intros H. induction l1 as [| x l1 IH]; [reflexivity |].
  cbn [app]. destruct (l1 ++ l2) eqn:E.
  - destruct l1; [contradiction | discriminate].
  - exact IH.
Qed.

(** X15.  The location is the text of [input_folder] after its last "/":
    it holds no "/", and [input_folder] is the location itself or ends
    with "/" and the location. *)
Theorem location_is_last_component (input_folder : string) :
  contains "/" (location input_folder) = false
  /\ (input_folder = location input_folder
      \/ exists pre,
          input_folder = (pre ++ "/" ++ location input_folder)%string).
Proof. apply last_str_split. Qed.

(** X16.  An input folder written with a "/" at its end has the empty
    location: the output files are named [output_folder/-stem]. *)
Theorem location_of_trailing_slash (folder : string) :
  location (folder ++ "/") = EmptyString
  /\ forall output_folder filename,
      output_filename output_folder (folder ++ "/") filename
      = (output_folder ++ "/-"
           ++ hd EmptyString (str_split "." filename))%string.
Proof.
  assert (E : location (folder ++ "/") = EmptyString).
  { unfold location. rewrite str_split_at.
    apply last_app_nonempty. discriminate. }
  split; [exact E |].
  intros output_folder filename. unfold output_filename.
  unfold location in E. rewrite E. reflexivity.
Qed.

Lemma hd_str_split_clean (sep : ascii) (s : string) :
  contains sep (hd EmptyString (str_split sep s)) = false.
Proof.
  pose proof (str_split_pieces sep s) as F.
  destruct (str_split sep s); [reflexivity |].
  inversion F; assumption.
Qed.

(** The output path, cut after the location. *)
Lemma output_filename_assoc (output_folder input_folder filename : string) :
  output_filename output_folder input_folder filename
  = ((output_folder ++ "/" ++ location input_folder)
       ++ String "-" (hd EmptyString (str_split "." filename)))%string.
Proof.
  unfold output_filename, location.
  rewrite !str_app_assoc. reflexivity.
Qed.

(** X17.  When neither the output folder nor the location holds a "." or
    a "-", the graph number is the file name up to its first "." and its
    first "-": the whole stem when the stem has no "-". *)
Theorem graph_num_of_clean_folders (output_folder input_folder filename : string) :
  contains "." output_folder = false ->
  contains "-" output_folder = false ->
  contains "." (location input_folder) = false ->
  contains "-" (location input_folder) = false ->
  graph_num (output_filename output_folder input_folder filename)
  = hd EmptyString
       (str_split "-" (hd EmptyString (str_split "." filename)))
  /\ (contains "-" (hd EmptyString (str_split "." filename)) = false ->
      graph_num (output_filename output_folder input_folder filename)
      = hd EmptyString (str_split "." filename)).
Proof.
  intros Hod Hoh Hld Hlh.
  set (stem := hd EmptyString (str_split "." filename)).
  assert (Hstem : contains "." stem = false) by apply hd_str_split_clean.
  assert (G : graph_num (output_filename output_folder input_folder filename)
              = hd EmptyString (str_split "-" stem)).
  { unfold graph_num. rewrite output_filename_assoc. fold stem.
    rewrite (str_split_none ".").
    - cbn [hd]. rewrite str_split_app.
      + cbn [nth_error].
        destruct (str_split "-" stem) as [| w ws] eqn:E;
          [destruct (str_split_nonempty _ _ E) | reflexivity].
      + rewrite !contains_app, Hoh, Hlh. reflexivity.
    - rewrite !contains_app. cbn [contains].
      rewrite Hod, Hld, Hstem. reflexivity. }
  split; [exact G |].
  intros Hs. rewrite G, (str_split_none _ _ Hs). reflexivity.
Qed.

Lemma graph_num_of_clean_folders_witness :
  contains "." "out" = false /\ contains "-" "out" = false
  /\ contains "." (location "data/GB") = false
  /\ contains "-" (location "data/GB") = false
  /\ graph_num (output_filename "out" "data/GB" "3.svg")
     = hd EmptyString (str_split "-" (hd EmptyString (str_split "." "3.svg")))
  /\ (contains "-" (hd EmptyString (str_split "." "3.svg")) = false ->
      graph_num (output_filename "out" "data/GB" "3.svg")
      = hd EmptyString (str_split "." "3.svg")).
Proof.
  split; [reflexivity |]. split; [reflexivity |].
  split; [reflexivity |]. split; [reflexivity |].
  apply (@graph_num_of_clean_folders "out" "data/GB" "3.svg"); reflexivity.
Defined.

(** X18.  When the output folder starts with "." (as in [./out] or
    [../out]), the graph number is the empty string for every file. *)
Theorem graph_num_of_dot_folder (rest input_folder filename : string) :
  graph_num (output_filename (String "." rest) input_folder filename)
  = EmptyString.
Proof. reflexivity. Qed.

(** X19.  When the location holds a "-" (and the folders hold no "."
    and the output folder no "-"), the graph number is a piece of the
    location, its second piece between "-": it is the same for every file
    of the folder. *)
Theorem graph_num_of_dashed_location (output_folder input_folder : string) :
  contains "." output_folder = false ->
  contains "-" output_folder = false ->
  contains "." (location input_folder) = false ->
  contains "-" (location input_folder) = true ->
  exists g,
    nth_error (str_split "-" (location input_folder)) 1 = Some g
    /\ forall filename,
        graph_num (output_filename output_folder input_folder filename) = g.
Proof.
  intros Hod Hoh Hld Hlh.
  destruct (contains_split _ _ Hlh) as (pre & rest & El & Hpre).
  exists (hd EmptyString (str_split "-" rest)). split.
  - rewrite El, (str_split_app _ _ _ Hpre). cbn [nth_error].
    destruct (str_split "-" rest) as [| w ws] eqn:E;
      [destruct (str_split_nonempty _ _ E) | reflexivity].
  - intros filename. unfold graph_num.
    rewrite output_filename_assoc.
    set (stem := hd EmptyString (str_split "." filename)).
    assert (Hstem : contains "." stem = false) by apply hd_str_split_clean.
    rewrite (str_split_none ".").
    + cbn [hd]. rewrite El.
      replace (((output_folder ++ "/" ++ pre ++ String "-" rest)
                  ++ String "-" stem)%string)
        with ((output_folder ++ "/" ++ pre)
                ++ String "-" (rest ++ String "-" stem))%string
        by (rewrite !str_app_assoc; reflexivity).
      rewrite str_split_app.
      * cbn [nth_error].
        pose proof (hd_str_split_app "-" rest stem) as Hh.
        destruct (str_split "-" (rest ++ String "-" stem)) as [| w ws] eqn:E;
          [destruct (str_split_nonempty _ _ E) |].
        exact Hh.
      * rewrite !contains_app, Hoh, Hpre. reflexivity.
    + rewrite !contains_app. cbn [contains].
      rewrite Hod, Hld, Hstem. reflexivity.
Qed.

Lemma graph_num_of_dashed_location_witness :
  contains "." "out" = false /\ contains "-" "out" = false
  /\ contains "." (location "data/2020-03-29_GB") = false
  /\ contains "-" (location "data/2020-03-29_GB") = true
  /\ exists g,
      nth_error (str_split "-" (location "data/2020-03-29_GB")) 1 = Some g
      /\ forall filename,
          graph_num (output_filename "out" "data/2020-03-29_GB" filename) = g.
Proof.
  split; [reflexivity |]. split; [reflexivity |].
  split; [reflexivity |]. split; [reflexivity |].
  apply (@graph_num_of_dashed_location "out" "data/2020-03-29_GB");
    reflexivity.
Defined.
